(** * radio-station: the search orchestration and the playback session of the
    React client, embedded from the three drafts of [App.js].

    - [Draft1] and [Draft2] are the two components stored one after the other
      in [src/frontend/src/App.js] (catalog truncated at fetch, filtering done
      on the client at render time).
    - [Draft3] is the component of [src/unnamed/part_000] (debounced effect,
      server search with a client-side fallback).
    - The playback handlers ([playStation], [toggleMute],
      [handleVolumeChange]) are written identically in the three drafts; they
      are embedded once, from [part_000].

    Conventions of the embedding.
    - A JavaScript string is a sequence of code units; the model keeps the
      8-bit (Latin-1) code units, with [toLowerCase], [trim] and the regular
      expression classes [\d] and [\s] restricted to that range.
    - A React state variable is a field of the state record; a handler reads
      the fields of the state it was called on (the values closed over by the
      render) and returns the state after its [set...] calls.
    - [audioRef.current] and everything outside React (the pending timeout,
      the requests issued, the console, the calls made on the audio element)
      are fields of the same record, updated in place.
    - An [await] splits a handler in two: the part run at the call and the
      part run when the promise settles. *)

From Stdlib Require Import Bool List String Ascii NArith ZArith QArith Lia.
Import ListNotations.
Open Scope string_scope.

(** ** JavaScript strings *)

Module JS.

Definition code (c : ascii) : N := N_of_ascii c.

(** [\d]: the ten ASCII digits. *)
Definition is_digit (c : ascii) : bool :=
  ((48 <=? code c) && (code c <=? 57))%N.

(** White space of [String.prototype.trim] and of [\s], in the Latin-1 range:
    TAB, LF, VT, FF, CR, SPACE and NO-BREAK SPACE. *)
Definition is_space (c : ascii) : bool :=
  existsb (N.eqb (code c)) [9; 10; 11; 12; 13; 32; 160]%N.

(** Simple case mapping of one code unit: [A-Z] and the accented capitals
    U+00C0..U+00DE (the multiplication sign U+00D7 apart). *)
Definition lower_char (c : ascii) : ascii :=
  let n := code c in
  if (((65 <=? n) && (n <=? 90)) ||
      ((192 <=? n) && (n <=? 222) && negb (n =? 215)))%N
  then ascii_of_N (n + 32) else c.

Fixpoint toLowerCase (s : string) : string :=
  match s with
  | EmptyString => EmptyString
  | String c t => String (lower_char c) (toLowerCase t)
  end.

Fixpoint trimStart (s : string) : string :=
  match s with
  | EmptyString => EmptyString
  | String c t => if is_space c then trimStart t else s
  end.

Fixpoint trimEnd (s : string) : string :=
  match s with
  | EmptyString => EmptyString
  | String c t =>
      match trimEnd t with
      | EmptyString => if is_space c then EmptyString else String c EmptyString
      | t' => String c t'
      end
  end.

Definition trim (s : string) : string := trimEnd (trimStart s).

(** Truthiness of a string: every string but the empty one. *)
Definition truthy (s : string) : bool :=
  match s with EmptyString => false | _ => true end.

(** [hay.includes(needle)]: [needle] occurs in [hay] at some position. *)
Fixpoint includes (hay needle : string) : bool :=
  prefix needle hay ||
  match hay with
  | EmptyString => false
  | String _ t => includes t needle
  end.

(** [encodeURIComponent]: the unreserved characters are kept, every other
    code unit is written as the percent-escaped bytes of its UTF-8 form. *)
Definition unreserved (c : ascii) : bool :=
  let n := code c in
  (((65 <=? n) && (n <=? 90)) || ((97 <=? n) && (n <=? 122)) ||
   ((48 <=? n) && (n <=? 57)) ||
   existsb (N.eqb n) [45; 95; 46; 33; 126; 42; 39; 40; 41])%N.

Definition hex_digit (n : N) : ascii :=
  match String.get (N.to_nat n) "0123456789ABCDEF" with
  | Some c => c
  | None => "0"%char
  end.

Definition percent (byte : N) : string :=
  String "%" (String (hex_digit (byte / 16))
                     (String (hex_digit (byte mod 16)) EmptyString)).

Definition encode_char (c : ascii) : string :=
  let n := code c in
  if unreserved c then String c EmptyString
  else if (n <? 128)%N then percent n
  else percent (192 + n / 64) ++ percent (128 + n mod 64).

Fixpoint encodeURIComponent (s : string) : string :=
  match s with
  | EmptyString => EmptyString
  | String c t => encode_char c ++ encodeURIComponent t
  end.

End JS.

(** ** Data model *)

(** A station record as delivered by the backend.  [tags] may be missing. *)
Record Station := mkStation {
  uuid : string;
  name : string;
  country : string;
  language : string;
  tags : option string;
  url : string;
  bitrate : Z
}.

(** The [<audio>] element behind [audioRef.current]: the two attributes the
    handlers assign. *)
Record Audio := mkAudio {
  src : string;
  level : Q
}.

(** Calls and assignments made on the audio element, oldest first. *)
Inductive AudioCall :=
| CallPause
| SetSrc (u : string)
| SetVolume (v : Q)
| CallPlay.

(** Settlement of a promise ([fetch] followed by [json], or [play]). *)
Inductive Settled (A : Type) :=
| Resolved (a : A)
| Rejected.
Arguments Resolved {A} a.
Arguments Rejected {A}.

(** The playback states of the specification. *)
Inductive PlaybackState :=
| Idle
| Playing (s : Station)
| Paused (s : Station).

(** ** The frequency pattern of the second draft

    The pattern is a first capture group made of [\d{2,3}], [\.?] and [\d*],
    followed by [\s*] and by an optional second capture group
    [fm|am|khz|mhz], under the flag [i].  It is embedded as
    [String.prototype.match] runs it: the leftmost position where the pattern
    matches, every quantifier greedy.  Once [\d{2,3}] has matched, everything
    after it may match the empty string, so the greedy choice is never
    undone. *)

Module Regex.
Import JS.

(** The longest prefix of at most [n] code units satisfying [p], and the rest. *)
Fixpoint take_upto (p : ascii -> bool) (n : nat) (s : string) : string * string :=
  match n, s with
  | S n', String c t =>
      if p c then let (a, r) := take_upto p n' t in (String c a, r)
      else (EmptyString, s)
  | _, _ => (EmptyString, s)
  end.

(** The longest prefix satisfying [p], and the rest. *)
Fixpoint take_while (p : ascii -> bool) (s : string) : string * string :=
  match s with
  | String c t =>
      if p c then let (a, r) := take_while p t in (String c a, r)
      else (EmptyString, s)
  | EmptyString => (EmptyString, s)
  end.

(** [\.?] *)
Definition take_dot (s : string) : string * string :=
  match s with
  | String "."%char t => (".", t)
  | _ => (EmptyString, s)
  end.

(** One alternative of the unit group, letters compared without case. *)
Definition alt_at (alt s : string) : option string :=
  let cand := substring 0 (String.length alt) s in
  if String.eqb (toLowerCase cand) alt then Some cand else None.

(** [(fm|am|khz|mhz)?]: the alternatives in order; [None] when the group
    does not take part in the match. *)
Definition unit_at (s : string) : option string :=
  match alt_at "fm" s with
  | Some u => Some u
  | None =>
      match alt_at "am" s with
      | Some u => Some u
      | None =>
          match alt_at "khz" s with
          | Some u => Some u
          | None => alt_at "mhz" s
          end
      end
  end.

(** The match array: position, matched text, and the two capture groups. *)
Record Match := mkMatch {
  index : nat;
  whole : string;
  group1 : string;
  group2 : option string
}.

(** The pattern tried at the start of [s]. *)
Definition match_here (i : nat) (s : string) : option Match :=
  let (d1, r1) := take_upto is_digit 3 s in
  if (String.length d1 <? 2)%nat then None
  else
    let (dot, r2) := take_dot r1 in
    let (d2, r3) := take_while is_digit r2 in
    let (ws, r4) := take_while is_space r3 in
    let g1 := d1 ++ dot ++ d2 in
    let g2 := unit_at r4 in
    Some (mkMatch i (g1 ++ ws ++ match g2 with Some u => u | None => "" end)
                  g1 g2).

(** The pattern tried at every position from [i] on, leftmost first. *)
Fixpoint exec_from (i : nat) (s : string) : option Match :=
  match match_here i s with
  | Some m => Some m
  | None =>
      match s with
      | EmptyString => None
      | String _ t => exec_from (S i) t
      end
  end.

(** [searchTerm.match(frequencyPattern)] *)
Definition frequencyPattern (searchTerm : string) : option Match :=
  exec_from 0 searchTerm.

End Regex.

(** ** First and second draft ([src/frontend/src/App.js]) *)

Module Early.

(** The seven state variables and the ref shared by the two drafts, and the
    console. *)
Record State := mkState {
  stations : list Station;
  currentStation : option Station;
  isPlaying : bool;
  isLoading : bool;
  volume : Q;
  isMuted : bool;
  searchTerm : string;
  audioRef : option Audio;
  console : list string
}.

Definition initial : State :=
  mkState [] None false true (7 # 10) false "" None [].

Definition setStations (v : list Station) (s : State) : State :=
  mkState v (currentStation s) (isPlaying s) (isLoading s) (volume s)
          (isMuted s) (searchTerm s) (audioRef s) (console s).

Definition setIsLoading (v : bool) (s : State) : State :=
  mkState (stations s) (currentStation s) (isPlaying s) v (volume s)
          (isMuted s) (searchTerm s) (audioRef s) (console s).

Definition setSearchTerm (v : string) (s : State) : State :=
  mkState (stations s) (currentStation s) (isPlaying s) (isLoading s)
          (volume s) (isMuted s) v (audioRef s) (console s).

Definition console_error (msg : string) (s : State) : State :=
  mkState (stations s) (currentStation s) (isPlaying s) (isLoading s)
          (volume s) (isMuted s) (searchTerm s) (audioRef s)
          (console s ++ [msg]).

(** [fetchStations], once the request has settled; [limit] is the bound of
    [data.slice(0, limit)]. *)
Definition fetchStations_with (limit : nat)
    (response : Settled (list Station)) (s : State) : State :=
  match response with
  | Resolved data => setIsLoading false (setStations (firstn limit data) s)
  | Rejected => setIsLoading false (console_error "Error fetching stations:" s)
  end.

End Early.

Module Draft1.
Import JS Early.

(** [setStations(data.slice(0, 50))] *)
Definition fetchStations := fetchStations_with 50.

Definition matches (searchTerm : string) (station : Station) : bool :=
  includes (toLowerCase (name station)) (toLowerCase searchTerm) ||
  includes (toLowerCase (country station)) (toLowerCase searchTerm).

Definition filteredStations (s : State) : list Station :=
  filter (matches (searchTerm s)) (stations s).

End Draft1.

Module Draft2.
Import JS Early.

(** [setStations(data.slice(0, 60))] *)
Definition fetchStations := fetchStations_with 60.

(** [station.tags || ''] *)
Definition tags_or_empty (station : Station) : string :=
  match tags station with
  | Some t => t
  | None => ""
  end.

(** The callback of [stations.filter]. *)
Definition matches (searchTerm : string) (station : Station) : bool :=
  let searchLower := toLowerCase searchTerm in
  let stationName := toLowerCase (name station) in
  let stationCountry := toLowerCase (country station) in
  let stationTags := toLowerCase (tags_or_empty station) in
  match Regex.frequencyPattern searchTerm with
  | Some searchFrequency =>
      let frequency := Regex.group1 searchFrequency in
      includes stationName frequency
  | None =>
      includes stationName searchLower ||
      includes stationCountry searchLower ||
      includes stationTags searchLower
  end.

Definition filteredStations (s : State) : list Station :=
  filter (matches (searchTerm s)) (stations s).

End Draft2.

(** ** Third draft ([src/unnamed/part_000]) *)

Module Draft3.
Import JS.

(** The timeout registered by the search effect.  Its callback is
    [performSearch(searchTerm)] of the render that ran the effect, which
    closes over that render's [searchTerm] and [allStations]. *)
Record Timer := mkTimer {
  due : Z;
  timer_query : string;
  timer_catalog : list Station
}.

(** A search request on the wire, with what its continuation closes over. *)
Record Request := mkRequest {
  rq_url : string;
  rq_query : string;
  rq_catalog : list Station
}.

(** The nine state variables, [audioRef.current], and the surroundings of the
    component: the pending timeout, the search requests issued (oldest
    first), the console and the calls made on the audio element. *)
Record World := mkWorld {
  stations : list Station;
  allStations : list Station;
  currentStation : option Station;
  isPlaying : bool;
  isLoading : bool;
  volume : Q;
  isMuted : bool;
  searchTerm : string;
  isSearching : bool;
  audioRef : option Audio;
  timer : option Timer;
  fetches : list Request;
  console : list string;
  audioCalls : list AudioCall
}.

(** The state of [useState]'s initial values, before the ref is attached. *)
Definition initial : World :=
  mkWorld [] [] None false true (7 # 10) false "" false None None [] [] [].

(** The [<audio>] element as the page creates it. *)
Definition fresh_audio : Audio := mkAudio "" 1.

(** The component once mounted: the ref is attached. *)
Definition mounted : World :=
  mkWorld [] [] None false true (7 # 10) false "" false (Some fresh_audio)
          None [] [] [].

Definition setStations (v : list Station) (s : World) : World :=
  mkWorld v (allStations s) (currentStation s) (isPlaying s) (isLoading s)
    (volume s) (isMuted s) (searchTerm s) (isSearching s) (audioRef s)
    (timer s) (fetches s) (console s) (audioCalls s).

Definition setAllStations (v : list Station) (s : World) : World :=
  mkWorld (stations s) v (currentStation s) (isPlaying s) (isLoading s)
    (volume s) (isMuted s) (searchTerm s) (isSearching s) (audioRef s)
    (timer s) (fetches s) (console s) (audioCalls s).

Definition setCurrentStation (v : option Station) (s : World) : World :=
  mkWorld (stations s) (allStations s) v (isPlaying s) (isLoading s)
    (volume s) (isMuted s) (searchTerm s) (isSearching s) (audioRef s)
    (timer s) (fetches s) (console s) (audioCalls s).

Definition setIsPlaying (v : bool) (s : World) : World :=
  mkWorld (stations s) (allStations s) (currentStation s) v (isLoading s)
    (volume s) (isMuted s) (searchTerm s) (isSearching s) (audioRef s)
    (timer s) (fetches s) (console s) (audioCalls s).

Definition setIsLoading (v : bool) (s : World) : World :=
  mkWorld (stations s) (allStations s) (currentStation s) (isPlaying s) v
    (volume s) (isMuted s) (searchTerm s) (isSearching s) (audioRef s)
    (timer s) (fetches s) (console s) (audioCalls s).

Definition setVolume (v : Q) (s : World) : World :=
  mkWorld (stations s) (allStations s) (currentStation s) (isPlaying s)
    (isLoading s) v (isMuted s) (searchTerm s) (isSearching s) (audioRef s)
    (timer s) (fetches s) (console s) (audioCalls s).

Definition setIsMuted (v : bool) (s : World) : World :=
  mkWorld (stations s) (allStations s) (currentStation s) (isPlaying s)
    (isLoading s) (volume s) v (searchTerm s) (isSearching s) (audioRef s)
    (timer s) (fetches s) (console s) (audioCalls s).

Definition setSearchTerm (v : string) (s : World) : World :=
  mkWorld (stations s) (allStations s) (currentStation s) (isPlaying s)
    (isLoading s) (volume s) (isMuted s) v (isSearching s) (audioRef s)
    (timer s) (fetches s) (console s) (audioCalls s).

Definition setIsSearching (v : bool) (s : World) : World :=
  mkWorld (stations s) (allStations s) (currentStation s) (isPlaying s)
    (isLoading s) (volume s) (isMuted s) (searchTerm s) v (audioRef s)
    (timer s) (fetches s) (console s) (audioCalls s).

(** A call or an assignment on the element: its new attributes, and the call
    recorded. *)
Definition on_audio (a : Audio) (c : AudioCall) (s : World) : World :=
  mkWorld (stations s) (allStations s) (currentStation s) (isPlaying s)
    (isLoading s) (volume s) (isMuted s) (searchTerm s) (isSearching s)
    (Some a) (timer s) (fetches s) (console s) (audioCalls s ++ [c]).

(** [setTimeout] and [clearTimeout] *)
Definition set_timer (v : option Timer) (s : World) : World :=
  mkWorld (stations s) (allStations s) (currentStation s) (isPlaying s)
    (isLoading s) (volume s) (isMuted s) (searchTerm s) (isSearching s)
    (audioRef s) v (fetches s) (console s) (audioCalls s).

(** [fetch] *)
Definition send (r : Request) (s : World) : World :=
  mkWorld (stations s) (allStations s) (currentStation s) (isPlaying s)
    (isLoading s) (volume s) (isMuted s) (searchTerm s) (isSearching s)
    (audioRef s) (timer s) (fetches s ++ [r]) (console s) (audioCalls s).

(** [console.error] *)
Definition console_error (msg : string) (s : World) : World :=
  mkWorld (stations s) (allStations s) (currentStation s) (isPlaying s)
    (isLoading s) (volume s) (isMuted s) (searchTerm s) (isSearching s)
    (audioRef s) (timer s) (fetches s) (console s ++ [msg]) (audioCalls s).

Section App.

(** [process.env.REACT_APP_BACKEND_URL] and the platform's
    [encodeURIComponent]. *)
Variable REACT_APP_BACKEND_URL : option string.
Variable encodeURIComponent : string -> string.

Definition backendUrl : string :=
  match REACT_APP_BACKEND_URL with
  | Some u => if truthy u then u else "http://localhost:8001"
  | None => "http://localhost:8001"
  end.

(** *** Catalog *)

(** [fetchStations], once the request has settled. *)
Definition fetchStations (response : Settled (list Station)) (s : World)
  : World :=
  match response with
  | Resolved data => setIsLoading false (setStations data (setAllStations data s))
  | Rejected => setIsLoading false (console_error "Error fetching stations:" s)
  end.

(** *** Search *)

(** The callback of [allStations.filter] in the [catch] of [performSearch]. *)
Definition fallback_matches (query : string) (station : Station) : bool :=
  includes (toLowerCase (name station)) (toLowerCase query) ||
  includes (toLowerCase (country station)) (toLowerCase query) ||
  match tags station with
  | Some t => truthy t && includes (toLowerCase t) (toLowerCase query)
  | None => false
  end.

Definition search_url (query : string) : string :=
  backendUrl ++ "/api/stations/search?query=" ++ encodeURIComponent query.

(** [performSearch] up to its [await]: the flag is raised and the request
    leaves. *)
Definition performSearch (query : string) (catalog : list Station)
    (s : World) : World :=
  send (mkRequest (search_url query) query catalog) (setIsSearching true s).

(** [performSearch] from its [await] on: the [try] continues on a response,
    the [catch] runs on a failure; the flag is lowered in both cases. *)
Definition performSearch_settled (r : Request)
    (response : Settled (list Station)) (s : World) : World :=
  setIsSearching false
    match response with
    | Resolved data => setStations data s
    | Rejected =>
        let filtered := filter (fallback_matches (rq_query r)) (rq_catalog r) in
        setStations filtered (console_error "Error searching stations:" s)
    end.

(** The cleanup returned by the last run of the effect:
    [clearTimeout(timeoutId)]. *)
Definition effect_cleanup (s : World) : World := set_timer None s.

(** The body of the debounced search effect, run at time [now].  The new
    timeout takes the one slot; the cleanup has emptied it before.  Module
    [Debounce] keeps the whole table of timeouts instead, and [abstract_run]
    relates the two. *)
Definition effect_body (now : Z) (s : World) : World :=
  if truthy (trim (searchTerm s)) then
    set_timer (Some (mkTimer (now + 500) (searchTerm s) (allStations s))) s
  else
    setIsSearching false (setStations (allStations s) s).

(** A re-run of the effect after one of its dependencies
    [[searchTerm, allStations]] has changed: cleanup, then body. *)
Definition rerun_effect (now : Z) (s : World) : World :=
  effect_body now (effect_cleanup s).

(** [onChange] of the search input: [setSearchTerm(e.target.value)].  The
    effect runs again only when the dependency has changed. *)
Definition onSearchChange (now : Z) (text : string) (s : World) : World :=
  if String.eqb text (searchTerm s) then s
  else rerun_effect now (setSearchTerm text s).

(** The catalog arriving: [allStations] is a new array, the effect runs
    again. *)
Definition onCatalogSettled (now : Z) (response : Settled (list Station))
    (s : World) : World :=
  match response with
  | Resolved _ => rerun_effect now (fetchStations response s)
  | Rejected => fetchStations response s
  end.

(** The timeout fires: its callback starts the search. *)
Definition fire_timer (s : World) : World :=
  match timer s with
  | Some t => performSearch (timer_query t) (timer_catalog t) (set_timer None s)
  | None => s
  end.

(** Time reaches [now]: a timeout that is due fires. *)
Definition advance (now : Z) (s : World) : World :=
  match timer s with
  | Some t => if (due t <=? now)%Z then fire_timer s else s
  | None => s
  end.

(** What can happen to the search side of the component. *)
Inductive Event :=
| Change (text : string)
| SearchSettled (i : nat) (response : Settled (list Station))
| CatalogSettled (response : Settled (list Station)).

(** One event at time [now].  [SearchSettled i] settles the [i]-th request
    issued. *)
Definition handle (now : Z) (e : Event) (s : World) : World :=
  match e with
  | Change text => onSearchChange now text s
  | SearchSettled i response =>
      match nth_error (fetches s) i with
      | Some r => performSearch_settled r response s
      | None => s
      end
  | CatalogSettled response => onCatalogSettled now response s
  end.

(** A timed trace: before each event the clock moves to its time. *)
Fixpoint run (trace : list (Z * Event)) (s : World) : World :=
  match trace with
  | [] => s
  | (now, e) :: rest => run rest (handle now e (advance now s))
  end.

(** *** Playback *)

(** [currentStation?.uuid === station.uuid] *)
Definition is_current (station : Station) (s : World) : bool :=
  match currentStation s with
  | Some c => String.eqb (uuid c) (uuid station)
  | None => false
  end.

Definition proxyUrl (station : Station) : string :=
  backendUrl ++ "/api/stream/" ++ encodeURIComponent (url station).

(** [audioRef.current?.pause()] and the guarded
    [if (audioRef.current) audioRef.current.pause()] *)
Definition pause_if_attached (s : World) : World :=
  match audioRef s with
  | Some a => on_audio a CallPause s
  | None => s
  end.

(** The [catch] of [playStation]. *)
Definition playStation_catch (s : World) : World :=
  setIsPlaying false (console_error "Error playing station:" s).

(** [playStation] up to its [await].  The boolean tells whether the handler
    is left waiting for [play()]; it is not when the handler has returned
    from the pause branch, or when the assignment to [audioRef.current.src]
    has thrown on a null ref and the [catch] has already run. *)
Definition playStation (station : Station) (s : World) : World * bool :=
  if is_current station s && isPlaying s then
    (setIsPlaying false (pause_if_attached s), false)
  else
    let s1 := pause_if_attached s in
    let s2 := setIsPlaying true (setCurrentStation (Some station) s1) in
    match audioRef s2 with
    | None => (playStation_catch s2, false)
    | Some a =>
        let a1 := mkAudio (proxyUrl station) (level a) in
        let s3 := on_audio a1 (SetSrc (proxyUrl station)) s2 in
        let v := if isMuted s then 0 else volume s in
        let a2 := mkAudio (src a1) v in
        let s4 := on_audio a2 (SetVolume v) s3 in
        (on_audio a2 CallPlay s4, true)
    end.

(** [playStation] from its [await] on. *)
Definition playStation_settled (outcome : Settled unit) (s : World) : World :=
  match outcome with
  | Resolved _ => s
  | Rejected => playStation_catch s
  end.

(** A whole call of [playStation], nothing else happening before [play()]
    settles. *)
Definition select (station : Station) (outcome : Settled unit) (s : World)
  : World :=
  let (s', waiting) := playStation station s in
  if waiting then playStation_settled outcome s' else s'.

(** [onError] and [onEnded] of the element. *)
Definition onError (s : World) : World := setIsPlaying false s.
Definition onEnded (s : World) : World := setIsPlaying false s.

Definition toggleMute (s : World) : World :=
  match audioRef s with
  | Some a =>
      if isMuted s then
        setIsMuted false (on_audio (mkAudio (src a) (volume s))
                                   (SetVolume (volume s)) s)
      else
        setIsMuted true (on_audio (mkAudio (src a) 0) (SetVolume 0) s)
  | None => s
  end.

(** [newVolume] is [parseFloat(e.target.value)]. *)
Definition handleVolumeChange (newVolume : Q) (s : World) : World :=
  let s1 := setVolume newVolume s in
  match audioRef s with
  | Some a =>
      if negb (isMuted s) then
        on_audio (mkAudio (src a) newVolume) (SetVolume newVolume) s1
      else s1
  | None => s1
  end.

(** The operations that touch the audio output. *)
Inductive AudioOp :=
| OpPlay (station : Station)
| OpPlaySettled (outcome : Settled unit)
| OpToggleMute
| OpVolume (newVolume : Q)
| OpError
| OpEnded.

Definition audio_step (op : AudioOp) (s : World) : World :=
  match op with
  | OpPlay station => fst (playStation station s)
  | OpPlaySettled outcome => playStation_settled outcome s
  | OpToggleMute => toggleMute s
  | OpVolume v => handleVolumeChange v s
  | OpError => onError s
  | OpEnded => onEnded s
  end.

End App.

(** *** Reading the state *)

(** The playback state shown by the component: the "Now Playing" panel is
    rendered when [currentStation] is set, the pause icon when the station is
    the current one and [isPlaying] holds. *)
Definition playbackState (s : World) : PlaybackState :=
  match currentStation s with
  | None => Idle
  | Some station => if isPlaying s then Playing station else Paused station
  end.

(** The element, when attached, sounds at 0 under mute and at the stored
    level otherwise. *)
Definition level_invariant (s : World) : Prop :=
  forall a, audioRef s = Some a ->
            level a = if isMuted s then 0 else volume s.

(** The calls made on the element by a step from [s] to [s']. *)
Definition new_calls (s s' : World) : list AudioCall :=
  skipn (List.length (audioCalls s)) (audioCalls s').

Definition is_SetSrc (c : AudioCall) : bool :=
  match c with SetSrc _ => true | _ => false end.

Definition is_CallPlay (c : AudioCall) : bool :=
  match c with CallPlay => true | _ => false end.

End Draft3.

(** ** The debounce of the third draft over the table of timeouts

    [Draft3.World] holds one slot for the timeout of the search effect.  Here
    the browser's table of timeouts is kept whole: [setTimeout] adds a
    timeout under a new id, and a timeout stays pending until it fires or
    until [clearTimeout] is called with its id.  A page is the component
    (its slot [timer] left unused), the table, and the [timeoutId] closed
    over by the cleanup that the last run of the effect returned. *)

Module Debounce.
Import JS Draft3.

(** A pending timeout: its id and its callback. *)
Record Timeout := mkTimeout {
  timeout_id : nat;
  timeout : Timer
}.

Record Page := mkPage {
  app : World;
  table : list Timeout;
  next_id : nat;
  timeoutId : option nat
}.

(** The mounted component, no timeout registered yet. *)
Definition mounted_page : Page := mkPage mounted [] 0 None.

(** A handler of the component run on the page. *)
Definition on_app (f : World -> World) (p : Page) : Page :=
  mkPage (f (app p)) (table p) (next_id p) (timeoutId p).

Definition set_table (v : list Timeout) (p : Page) : Page :=
  mkPage (app p) v (next_id p) (timeoutId p).

Definition set_timeoutId (v : option nat) (p : Page) : Page :=
  mkPage (app p) (table p) (next_id p) v.

(** [setTimeout]: the page with the timeout registered, and its id. *)
Definition setTimeout (callback : Timer) (p : Page) : Page * nat :=
  (mkPage (app p) (table p ++ [mkTimeout (next_id p) callback])
          (S (next_id p)) (timeoutId p),
   next_id p).

(** [clearTimeout]: the timeout of that id, if pending, is dropped. *)
Definition clearTimeout (id : nat) (p : Page) : Page :=
  set_table (filter (fun x => negb (Nat.eqb (timeout_id x) id)) (table p)) p.

(** The cleanup returned by the last run of the effect, if it returned one:
    [clearTimeout(timeoutId)]. *)
Definition effect_cleanup (p : Page) : Page :=
  match timeoutId p with
  | Some id => set_timeoutId None (clearTimeout id p)
  | None => p
  end.

(** The body of the debounced search effect, run at time [now]: it returns a
    cleanup in its first branch only. *)
Definition effect_body (now : Z) (p : Page) : Page :=
  if truthy (trim (searchTerm (app p))) then
    let (p1, id) :=
      setTimeout (mkTimer (now + 500) (searchTerm (app p))
                          (allStations (app p))) p in
    set_timeoutId (Some id) p1
  else
    set_timeoutId None
      (on_app (fun w => setIsSearching false (setStations (allStations w) w))
              p).

(** A re-run of the effect after a dependency has changed: the cleanup of the
    run before, then the body. *)
Definition rerun_effect (now : Z) (p : Page) : Page :=
  effect_body now (effect_cleanup p).

(** [onChange] of the search input. *)
Definition onSearchChange (now : Z) (text : string) (p : Page) : Page :=
  if String.eqb text (searchTerm (app p)) then p
  else rerun_effect now (on_app (setSearchTerm text) p).

(** The catalog arriving. *)
Definition onCatalogSettled (now : Z) (response : Settled (list Station))
    (p : Page) : Page :=
  match response with
  | Resolved _ => rerun_effect now (on_app (fetchStations response) p)
  | Rejected => on_app (fetchStations response) p
  end.

Definition is_due (now : Z) (x : Timeout) : bool :=
  (due (timeout x) <=? now)%Z.

Section Page.

Variable REACT_APP_BACKEND_URL : option string.
Variable encodeURIComponent : string -> string.

(** A timeout fires: its callback starts the search. *)
Definition fire (x : Timeout) (p : Page) : Page :=
  on_app (performSearch REACT_APP_BACKEND_URL encodeURIComponent
            (timer_query (timeout x)) (timer_catalog (timeout x))) p.

(** Time reaches [now]: every timeout that is due leaves the table and
    fires, in the order of registration (all delays being 500 ms, this is
    the order in which they fall due). *)
Definition advance (now : Z) (p : Page) : Page :=
  fold_left (fun q x => fire x q)
            (filter (is_due now) (table p))
            (set_table (filter (fun x => negb (is_due now x)) (table p)) p).

(** One event at time [now]. *)
Definition handle (now : Z) (e : Event) (p : Page) : Page :=
  match e with
  | Change text => onSearchChange now text p
  | SearchSettled i response =>
      match nth_error (fetches (app p)) i with
      | Some r => on_app (performSearch_settled r response) p
      | None => p
      end
  | CatalogSettled response => onCatalogSettled now response p
  end.

(** A timed trace. *)
Fixpoint run (trace : list (Z * Event)) (p : Page) : Page :=
  match trace with
  | [] => p
  | (now, e) :: rest => run rest (handle now e (advance now p))
  end.

End Page.

(** The page seen through the one slot of [Draft3.World]: the slot shows the
    first pending timeout. *)
Definition abstract (p : Page) : World :=
  set_timer (option_map timeout (hd_error (table p))) (app p).

End Debounce.

(** ** What the cards and the results line show

    The expressions of the markup that decide what is displayed: the results
    line of the second and third drafts, the genre of a card, and the icon of
    its button (the same in the three drafts). *)

Module Render.
Import JS.

(** The pattern of the results line, [\d+] then [\.?] then [\d*], tried at
    the start of [s]; the result is the text matched. *)
Definition number_here (s : string) : option string :=
  let (d1, r1) := Regex.take_while is_digit s in
  if (String.length d1 <? 1)%nat then None
  else
    let (dot, r2) := Regex.take_dot r1 in
    let (d2, _) := Regex.take_while is_digit r2 in
    Some (d1 ++ dot ++ d2).

(** The same pattern as [String.prototype.match] runs it, leftmost first. *)
Fixpoint numberPattern (s : string) : option string :=
  match number_here s with
  | Some m => Some m
  | None =>
      match s with
      | EmptyString => None
      | String _ t => numberPattern t
      end
  end.

(** What follows "Found N stations". *)
Definition frequency_hint (searchTerm : string) : string :=
  match numberPattern searchTerm with
  | Some _ => " matching frequency"
  | None => ""
  end.

(** The results line, rendered when [searchTerm] is truthy: the number of
    stations shown and the hint. *)
Definition results_info (searchTerm : string) (shown : list Station)
  : option (nat * string) :=
  if truthy searchTerm
  then Some (List.length shown, frequency_hint searchTerm)
  else None.

(** [tags.split(',')[0]] *)
Fixpoint first_field (tags : string) : string :=
  match tags with
  | EmptyString => EmptyString
  | String c t =>
      if Ascii.eqb c "," then EmptyString else String c (first_field t)
  end.

(** The genre of a card, rendered when [station.tags] is truthy. *)
Definition genre (station : Station) : option string :=
  match tags station with
  | Some t => if truthy t then Some (first_field t) else None
  | None => None
  end.

(** The button of a card carries the pause icon and the class playing when
    [currentStation?.uuid === station.uuid && isPlaying]. *)
Definition shows_pause (s : Draft3.World) (station : Station) : bool :=
  Draft3.is_current station s && Draft3.isPlaying s.

End Render.

(** ** Vocabulary of the statements *)

(** [needle] occurs in [hay]. *)
Definition contains (hay needle : string) : Prop :=
  exists pre post, hay = pre ++ needle ++ post.

(** [needle] occurs in [hay], letter case apart. *)
Definition contains_ci (hay needle : string) : Prop :=
  contains (JS.toLowerCase hay) (JS.toLowerCase needle).

(** Empty, or made of white space only. *)
Fixpoint blank (s : string) : bool :=
  match s with
  | EmptyString => true
  | String c t => JS.is_space c && blank t
  end.

(** Two digits in a row somewhere in [s]. *)
Definition has_two_digits (s : string) : Prop :=
  exists pre c1 c2 post,
    s = pre ++ String c1 (String c2 post) /\
    JS.is_digit c1 = true /\ JS.is_digit c2 = true.

(** Digits and dots only. *)
Fixpoint numeric (s : string) : bool :=
  match s with
  | EmptyString => true
  | String c t => (JS.is_digit c || Ascii.eqb c ".") && numeric t
  end.

(** The filter policy as the specification words it: a query holding the
    frequency pattern is compared, by its numeric portion alone, with the
    name; any other query is looked up in name, country and tags, letter case
    apart. *)
Definition policy (query : string) (station : Station) : Prop :=
  match Regex.frequencyPattern query with
  | Some m => contains (name station) (Regex.group1 m)
  | None =>
      contains_ci (name station) query \/
      contains_ci (country station) query \/
      contains_ci (Draft2.tags_or_empty station) query
  end.

(** Keystrokes [(time, text)] as a trace of the component. *)
Definition keystrokes (ks : list (Z * string)) : list (Z * Draft3.Event) :=
  map (fun k => (fst k, Draft3.Change (snd k))) ks.

(** A burst of keystrokes after the one at [prev_time] that left [prev_text]
    in the input: each comes less than 500 ms after the one before, changes
    the text, and leaves a text that is not blank. *)
Fixpoint rapid (prev_time : Z) (prev_text : string) (ks : list (Z * string))
  : Prop :=
  match ks with
  | [] => True
  | (t, q) :: rest =>
      (prev_time <= t < prev_time + 500)%Z /\
      blank q = false /\ q <> prev_text /\ rapid t q rest
  end.

(** No timeout of [s] is due at [now] or before. *)
Definition nothing_due (now : Z) (s : Draft3.World) : Prop :=
  match Draft3.timer s with
  | Some t => (now < Draft3.due t)%Z
  | None => True
  end.

(** A digit somewhere in [s]. *)
Definition has_digit (s : string) : Prop :=
  exists pre c post, s = pre ++ String c post /\ JS.is_digit c = true.

(** Digits only. *)
Fixpoint digits (s : string) : bool :=
  match s with
  | EmptyString => true
  | String c t => JS.is_digit c && digits t
  end.

(** [s] does not go on with a digit. *)
Definition no_digit_ahead (s : string) : bool :=
  match s with
  | EmptyString => true
  | String c _ => negb (JS.is_digit c)
  end.

(** A comma somewhere in [s]. *)
Fixpoint has_comma (s : string) : bool :=
  match s with
  | EmptyString => false
  | String c t => Ascii.eqb c "," || has_comma t
  end.

(** The pending timeout, if any, was registered for the text and the catalog
    the component holds now, and that text is not blank. *)
Definition timer_fresh (s : Draft3.World) : Prop :=
  match Draft3.timer s with
  | Some t =>
      Draft3.timer_query t = Draft3.searchTerm s /\
      Draft3.timer_catalog t = Draft3.allStations s /\
      blank (Draft3.searchTerm s) = false
  | None => True
  end.

(** No request has left for a blank text. *)
Definition no_blank_request (s : Draft3.World) : Prop :=
  Forall (fun r => blank (Draft3.rq_query r) = false) (Draft3.fetches s).

(** A sequence of operations on the audio output, oldest first. *)
Definition audio_run (env : option string) (enc : string -> string)
    (ops : list Draft3.AudioOp) (s : Draft3.World) : Draft3.World :=
  fold_left (fun w op => Draft3.audio_step env enc op w) ops s.

(** The element, when attached, holds the proxy address of the station
    selected, and no address while none is. *)
Definition src_follows (env : option string) (enc : string -> string)
    (s : Draft3.World) : Prop :=
  forall a, Draft3.audioRef s = Some a ->
            src a = match Draft3.currentStation s with
                    | Some station => Draft3.proxyUrl env enc station
                    | None => ""
                    end.

(** The fields of the component a render reads. *)
Definition same_sound (s s' : Draft3.World) : Prop :=
  Draft3.isMuted s = Draft3.isMuted s' /\
  Draft3.volume s = Draft3.volume s' /\
  Draft3.audioRef s = Draft3.audioRef s'.

(** At most one timeout is pending on the page, and it is the one the
    cleanup of the effect will clear. *)
Definition tidy (p : Debounce.Page) : Prop :=
  match Debounce.table p with
  | [] => True
  | [x] => Debounce.timeoutId p = Some (Debounce.timeout_id x)
  | _ => False
  end.

(** No timeout of the page is due at [now] or before. *)
Definition no_timeout_due (now : Z) (p : Debounce.Page) : Prop :=
  Forall (fun x => (now < Draft3.due (Debounce.timeout x))%Z)
         (Debounce.table p).

(** ** Sample data *)

Definition smooth_jazz : Station :=
  mkStation "u-1" "Smooth Jazz" "USA" "english" (Some "92.3 fm,jazz")
            "http://a.example/live" 128.

Definition hot_923 : Station :=
  mkStation "u-2" "Hot 92.3" "USA" "english" (Some "pop")
            "http://b.example/live" 128.

Definition rock_fm : Station :=
  mkStation "u-3" "Rock FM" "Germany" "german" (Some "rock")
            "http://c.example/live" 192.

Definition world_service : Station :=
  mkStation "u-4" "World Service" "UK" "english" (Some "News,talk")
            "http://d.example/live" 64.

(** The catalog arrives, the user types rock and then jazz, each search
    leaves after its debounce delay, and the response to the older search
    arrives after the response to the newer one. *)
Definition out_of_order : list (Z * Draft3.Event) :=
  [ (0, Draft3.CatalogSettled (Resolved [smooth_jazz; hot_923; rock_fm]));
    (1000, Draft3.Change "rock");
    (1600, Draft3.Change "jazz");
    (2200, Draft3.SearchSettled 1 (Resolved [smooth_jazz]));
    (2300, Draft3.SearchSettled 0 (Resolved [rock_fm])) ]%Z.

(** The mounted component after the user has typed rock, then jazz, then
    jazz fm: two searches have left, the third is pending. *)
Definition two_searches : Draft3.World :=
  Draft3.run None JS.encodeURIComponent
    [ (1000, Draft3.Change "rock");
      (1600, Draft3.Change "jazz");
      (2200, Draft3.Change "jazz fm") ]%Z
    Draft3.mounted.

(** The mounted component once the catalog has arrived. *)
Definition loaded : Draft3.World :=
  Draft3.handle 0
    (Draft3.CatalogSettled
       (Resolved [smooth_jazz; hot_923; rock_fm; world_service]))
    Draft3.mounted.

(** The mounted component while rock_fm plays. *)
Definition listening : Draft3.World :=
  Draft3.select None JS.encodeURIComponent rock_fm (Resolved tt)
    Draft3.mounted.

(** rock_fm selected a second time, and a third time. *)
Definition paused_once : Draft3.World :=
  Draft3.select None JS.encodeURIComponent rock_fm (Resolved tt) listening.

Definition selected_again : Draft3.World :=
  Draft3.select None JS.encodeURIComponent rock_fm (Resolved tt) paused_once.

(** rock_fm selected on the mounted component, [play()] rejecting. *)
Definition failed_start : Draft3.World :=
  Draft3.select None JS.encodeURIComponent rock_fm Rejected Draft3.mounted.

(** The end of the trace [out_of_order]. *)
Definition out_of_order_end : Draft3.World :=
  Draft3.run None JS.encodeURIComponent out_of_order Draft3.mounted.

(** Four keystrokes within 400 ms. *)
Definition burst : list (Z * string) :=
  [(0, "j"); (100, "ja"); (250, "jaz"); (400, "jazz")]%Z.

(** The loaded component one second later, rock just typed. *)
Definition typing : Draft3.World :=
  Draft3.handle 1000 (Draft3.Change "rock") loaded.

(** The loaded component after the search for news has left and failed. *)
Definition news_failed : Draft3.World :=
  Draft3.handle 1700 (Draft3.SearchSettled 0 Rejected)
    (Draft3.advance None JS.encodeURIComponent 1500
       (Draft3.handle 1000 (Draft3.Change "news") loaded)).

(** The page of the loaded component, no timeout registered. *)
Definition loaded_page : Debounce.Page := Debounce.mkPage loaded [] 0 None.

(** The component holding hot_923 alone, after the search for 92.3 FM has
    left and failed. *)
Definition frequency_failed : Draft3.World :=
  Draft3.handle 1700 (Draft3.SearchSettled 0 Rejected)
    (Draft3.advance None JS.encodeURIComponent 1500
       (Draft3.handle 1000 (Draft3.Change "92.3 FM")
          (Draft3.handle 0 (Draft3.CatalogSettled (Resolved [hot_923]))
             Draft3.mounted))).

(** ** Strings *)

Lemma prefix_spec (n h : string) :
  prefix n h = true <-> exists post, h = n ++ post.
Proof.
  revert h; induction n as [|c n IH]; intros h; simpl.
  - split; [intros _; now exists h | intros _; now destruct h].
  - destruct h as [|d h]; simpl.
    + split; [discriminate | intros [post H]; discriminate].
    + destruct (Ascii.ascii_dec c d) as [->|Hne].
      * rewrite IH. split; intros [post H]; exists post.
        -- now rewrite H.
        -- now injection H.
      * split; [discriminate | intros [post H]; injection H as E _; congruence].
Qed.

Lemma includes_spec (hay needle : string) :
  JS.includes hay needle = true <-> contains hay needle.
Proof.
  unfold contains. induction hay as [|c hay IH]; cbn [JS.includes].
  - rewrite orb_false_r, prefix_spec. split.
    + intros [post H]. now exists "", post.
    + intros [pre [post H]]. destruct pre; [now exists post | discriminate].
  - rewrite orb_true_iff, prefix_spec, IH. split.
    + intros [[post H] | [pre [post H]]].
      * now exists "", post.
      * exists (String c pre), post. simpl. now rewrite H.
    + intros [pre [post H]]. destruct pre as [|d pre]; simpl in H.
      * left. now exists post.
      * right. injection H as _ H. now exists pre, post.
Qed.

Lemma includes_false_spec (hay needle : string) :
  JS.includes hay needle = false <-> ~ contains hay needle.
Proof.
  rewrite <- includes_spec. destruct (JS.includes hay needle); split;
    congruence.
Qed.

(** Lowering a code unit neither creates nor destroys a digit or a dot. *)
Lemma lower_char_numeric (c d : ascii) :
  (JS.is_digit d || Ascii.eqb d ".") = true ->
  Ascii.eqb d (JS.lower_char c) = Ascii.eqb d c.
Proof.
  destruct c as [[] [] [] [] [] [] [] []], d as [[] [] [] [] [] [] [] []];
    vm_compute; congruence.
Qed.

Lemma prefix_lower_numeric (needle hay : string) :
  numeric needle = true ->
  prefix needle (JS.toLowerCase hay) = prefix needle hay.
Proof.
  revert hay; induction needle as [|d n IH]; intros hay Hn; simpl.
  - now destruct hay.
  - simpl in Hn. apply andb_true_iff in Hn as [Hd Hn].
    destruct hay as [|c hay]; simpl; [reflexivity|].
    pose proof (lower_char_numeric c d Hd) as E.
    destruct (Ascii.ascii_dec d (JS.lower_char c)) as [e1|n1],
             (Ascii.ascii_dec d c) as [e2|n2]; auto.
    + apply Ascii.eqb_eq in e1. rewrite E in e1.
      apply Ascii.eqb_eq in e1. contradiction.
    + apply Ascii.eqb_eq in e2. rewrite <- E in e2.
      apply Ascii.eqb_eq in e2. contradiction.
Qed.

Lemma includes_lower_numeric (hay needle : string) :
  numeric needle = true ->
  JS.includes (JS.toLowerCase hay) needle = JS.includes hay needle.
Proof.
  intros Hn. induction hay as [|c hay IH].
  - reflexivity.
  - change (JS.toLowerCase (String c hay))
      with (String (JS.lower_char c) (JS.toLowerCase hay)).
    cbn [JS.includes]. rewrite IH.
    f_equal. apply (prefix_lower_numeric needle (String c hay) Hn).
Qed.

Lemma trimStart_blank (s : string) :
  blank s = true -> JS.trimStart s = "".
Proof.
  induction s as [|c s IH]; simpl; [reflexivity|].
  intros H. apply andb_true_iff in H as [Hc Hs]. rewrite Hc. auto.
Qed.

Lemma trimEnd_empty (s : string) :
  JS.trimEnd s = "" -> blank s = true.
Proof.
  induction s as [|c s IH]; simpl; [reflexivity|].
  destruct (JS.trimEnd s) eqn:E.
  - destruct (JS.is_space c); [intros _; simpl; auto | discriminate].
  - discriminate.
Qed.

Lemma trimStart_not_blank (s : string) :
  blank s = false -> blank (JS.trimStart s) = false.
Proof.
  induction s as [|c s IH]; simpl; [auto|].
  destruct (JS.is_space c) eqn:E; simpl; [auto|].
  intros _. now rewrite E.
Qed.

(** [searchTerm.trim()] is falsy exactly on blank text. *)
Lemma trim_truthy (s : string) :
  JS.truthy (JS.trim s) = negb (blank s).
Proof.
  unfold JS.trim. destruct (blank s) eqn:B; simpl.
  - now rewrite (trimStart_blank s B).
  - apply trimStart_not_blank in B.
    destruct (JS.trimEnd (JS.trimStart s)) eqn:E; [|reflexivity].
    apply trimEnd_empty in E. congruence.
Qed.

(** ** The frequency pattern *)

Lemma numeric_app (a b : string) :
  numeric (a ++ b) = numeric a && numeric b.
Proof.
  induction a as [|c a IH]; simpl; [reflexivity|].
  now rewrite IH, andb_assoc.
Qed.

Lemma take_upto_digits (n : nat) (s : string) :
  numeric (fst (Regex.take_upto JS.is_digit n s)) = true.
Proof.
  revert s; induction n as [|n IH]; intros [|c s]; simpl; try reflexivity.
  destruct (JS.is_digit c) eqn:E; [|reflexivity].
  specialize (IH s). destruct (Regex.take_upto JS.is_digit n s); simpl in *.
  now rewrite E, IH.
Qed.

Lemma take_while_digits (s : string) :
  numeric (fst (Regex.take_while JS.is_digit s)) = true.
Proof.
  induction s as [|c s IH]; simpl; [reflexivity|].
  destruct (JS.is_digit c) eqn:E; [|reflexivity].
  destruct (Regex.take_while JS.is_digit s); simpl in *.
  now rewrite E, IH.
Qed.

Lemma take_dot_numeric (s : string) :
  numeric (fst (Regex.take_dot s)) = true.
Proof.
  destruct s as [|c s]; [reflexivity|].
  unfold Regex.take_dot.
  destruct c as [[] [] [] [] [] [] [] []]; reflexivity.
Qed.

Lemma match_here_numeric (i : nat) (s : string) (m : Regex.Match) :
  Regex.match_here i s = Some m -> numeric (Regex.group1 m) = true.
Proof.
  unfold Regex.match_here.
  pose proof (take_upto_digits 3 s) as H1.
  destruct (Regex.take_upto JS.is_digit 3 s) as [d1 r1].
  destruct (String.length d1 <? 2)%nat; [discriminate|].
  pose proof (take_dot_numeric r1) as H2.
  destruct (Regex.take_dot r1) as [dot r2].
  pose proof (take_while_digits r2) as H3.
  destruct (Regex.take_while JS.is_digit r2) as [d2 r3].
  destruct (Regex.take_while JS.is_space r3) as [ws r4].
  intros [= <-]. simpl in *.
  now rewrite !numeric_app, H1, H2, H3.
Qed.

(** The first capture group holds digits and dots only. *)
Lemma frequencyPattern_numeric (q : string) (m : Regex.Match) :
  Regex.frequencyPattern q = Some m -> numeric (Regex.group1 m) = true.
Proof.
  unfold Regex.frequencyPattern. generalize 0%nat.
  induction q as [|c q IH]; intros i; cbn [Regex.exec_from].
  - destruct (Regex.match_here i "") eqn:E; [|discriminate].
    intros [= <-]. eauto using match_here_numeric.
  - destruct (Regex.match_here i (String c q)) eqn:E.
    + intros [= <-]. eauto using match_here_numeric.
    + apply IH.
Qed.

Lemma match_here_none (i : nat) (s : string) :
  Regex.match_here i s = None <->
  (String.length (fst (Regex.take_upto JS.is_digit 3 s)) <? 2)%nat = true.
Proof.
  unfold Regex.match_here.
  destruct (Regex.take_upto JS.is_digit 3 s) as [d1 r1]; simpl.
  destruct (String.length d1 <? 2)%nat.
  - split; reflexivity.
  - destruct (Regex.take_dot r1) as [dot r2].
    destruct (Regex.take_while JS.is_digit r2) as [d2 r3].
    destruct (Regex.take_while JS.is_space r3) as [ws r4].
    split; discriminate.
Qed.

Lemma take_upto_two (s : string) :
  (String.length (fst (Regex.take_upto JS.is_digit 3 s)) <? 2)%nat = false <->
  exists c1 c2 rest, s = String c1 (String c2 rest) /\
                     JS.is_digit c1 = true /\ JS.is_digit c2 = true.
Proof.
  destruct s as [|c1 [|c2 rest]].
  - simpl. split; [discriminate | intros (? & ? & ? & H & _); discriminate].
  - simpl. destruct (JS.is_digit c1); simpl;
      (split; [discriminate | intros (? & ? & ? & H & _); discriminate]).
  - cbn [Regex.take_upto].
    destruct (JS.is_digit c1) eqn:E1.
    + destruct (JS.is_digit c2) eqn:E2.
      * split; [intros _; now exists c1, c2, rest | intros _].
        destruct rest as [|c3 r3]; [|destruct (JS.is_digit c3)]; reflexivity.
      * simpl. split; [discriminate|].
        intros (x & y & r & H & Hx & Hy). injection H as -> -> ->. congruence.
    + simpl. split; [discriminate|].
      intros (x & y & r & H & Hx & Hy). injection H as -> -> ->. congruence.
Qed.

(** The pattern matches at the start of [s] exactly when [s] starts with two
    digits. *)
Lemma match_here_some (i : nat) (s : string) :
  Regex.match_here i s <> None <->
  exists c1 c2 rest, s = String c1 (String c2 rest) /\
                     JS.is_digit c1 = true /\ JS.is_digit c2 = true.
Proof.
  rewrite <- take_upto_two, match_here_none.
  destruct (String.length _ <? 2)%nat; split; congruence.
Qed.

Lemma exec_from_some (i : nat) (s : string) :
  Regex.exec_from i s <> None <-> has_two_digits s.
Proof.
  unfold has_two_digits. revert i; induction s as [|c s IH]; intros i.
  - cbn [Regex.exec_from]. destruct (Regex.match_here i "") eqn:E.
    + assert (H : Regex.match_here i "" <> None) by congruence.
      apply match_here_some in H as (? & ? & ? & H & _). discriminate.
    + split; [congruence|].
      intros (pre & c1 & c2 & post & H & _). destruct pre; discriminate.
  - cbn [Regex.exec_from].
    destruct (Regex.match_here i (String c s)) eqn:E.
    + assert (H : Regex.match_here i (String c s) <> None) by congruence.
      apply match_here_some in H as (c1 & c2 & rest & H & H1 & H2).
      split; [intros _ | congruence].
      exists "", c1, c2, rest. auto.
    + rewrite IH. split.
      * intros (pre & c1 & c2 & post & H & H1 & H2).
        exists (String c pre), c1, c2, post. simpl. rewrite H. auto.
      * intros (pre & c1 & c2 & post & H & H1 & H2).
        destruct pre as [|d pre]; simpl in H.
        -- exfalso.
           assert (N : Regex.match_here i (String c s) <> None).
           { apply match_here_some. exists c1, c2, post. auto. }
           congruence.
        -- injection H as _ H. exists pre, c1, c2, post. auto.
Qed.

(** [searchTerm.match(frequencyPattern)] is truthy exactly when the text
    holds two digits in a row, wherever they stand. *)
Lemma frequencyPattern_matches (q : string) :
  Regex.frequencyPattern q <> None <-> has_two_digits q.
Proof. apply exec_from_some. Qed.

(** ** Filtering on the client *)

Lemma draft2_matches_policy (query : string) (station : Station) :
  Draft2.matches query station = true <-> policy query station.
Proof.
  unfold Draft2.matches, policy, contains_ci.
  destruct (Regex.frequencyPattern query) as [m|] eqn:E.
  - rewrite includes_lower_numeric by eauto using frequencyPattern_numeric.
    apply includes_spec.
  - rewrite !orb_true_iff, !includes_spec. tauto.
Qed.

Lemma fallback_matches_spec (query : string) (station : Station) :
  Draft3.fallback_matches query station = true <->
  contains_ci (name station) query \/
  contains_ci (country station) query \/
  exists t, tags station = Some t /\ t <> "" /\ contains_ci t query.
Proof.
  unfold Draft3.fallback_matches, contains_ci.
  rewrite !orb_true_iff, !includes_spec.
  destruct (tags station) as [t|].
  - rewrite andb_true_iff, includes_spec. split.
    + intros [[H|H]|[T H]]; auto. right; right. exists t.
      repeat split; auto. intros ->. discriminate.
    + intros [H|[H|(t' & [= <-] & T & H)]]; auto.
      right. split; auto. now destruct t.
  - split.
    + intros [[H|H]|H]; auto. discriminate.
    + intros [H|[H|(t' & T & _)]]; auto. discriminate.
Qed.

(** C4 (as amended).  In the second draft, [filteredStations] keeps a station
    exactly under the policy of the specification: when the query holds the
    frequency pattern, the name must contain the first capture group and no
    other field is looked at; otherwise name, country or tags must contain
    the query, letter case apart.  With the queries 92.3 and 92.3 FM the
    capture group is 92.3; the query jazz holds no frequency pattern.  The
    fallback filter of [performSearch] in the third draft has no frequency
    branch: whatever the query, it keeps a station exactly when name, country
    or non-empty tags contain the query, letter case apart. *)
Theorem C4_filter_policy (query : string) (station : Station) :
  (Draft2.matches query station = true <-> policy query station) /\
  option_map Regex.group1 (Regex.frequencyPattern "92.3") = Some "92.3" /\
  option_map Regex.group1 (Regex.frequencyPattern "92.3 FM") = Some "92.3" /\
  Regex.frequencyPattern "jazz" = None /\
  (Draft3.fallback_matches query station = true <->
   contains_ci (name station) query \/
   contains_ci (country station) query \/
   exists t, tags station = Some t /\ t <> "" /\ contains_ci t query).
Proof.
  split; [apply draft2_matches_policy|].
  repeat split; try reflexivity; apply fallback_matches_spec.
Qed.

(** C4, as stated, fails on the fallback filter of the third draft.  The
    query 92.3 keeps a station that carries 92.3 in its tags only, and the
    query 92.3 FM drops a station whose name contains 92.3. *)
Lemma C4_fallback_ignores_frequency :
  (~ policy "92.3" smooth_jazz /\
   Draft3.fallback_matches "92.3" smooth_jazz = true) /\
  (policy "92.3 FM" hot_923 /\
   Draft3.fallback_matches "92.3 FM" hot_923 = false).
Proof.
  repeat split.
  - change (~ contains "Smooth Jazz" "92.3").
    now apply includes_false_spec.
  - change (contains "Hot 92.3" "92.3").
    now apply includes_spec.
Qed.

(** On a non-empty query without frequency pattern the fallback of the third
    draft and the filter of the second draft agree. *)
Lemma fallback_matches_draft2 (query : string) (station : Station) :
  query <> "" -> Regex.frequencyPattern query = None ->
  Draft3.fallback_matches query station = Draft2.matches query station.
Proof.
  intros Hq Hp. unfold Draft3.fallback_matches, Draft2.matches.
  rewrite Hp. unfold Draft2.tags_or_empty.
  destruct (tags station) as [[|c t]|]; simpl; try reflexivity.
  - f_equal. destruct query; [congruence | reflexivity].
  - f_equal. destruct query; [congruence | reflexivity].
Qed.

(** ** Catalog of the first two drafts *)

Lemma In_firstn_nth {A : Type} (n : nat) (l : list A) (x : A) :
  In x (firstn n l) -> exists i, (i < n)%nat /\ nth_error l i = Some x.
Proof.
  revert l; induction n as [|n IH]; intros [|y l]; simpl; try tauto.
  intros [->|H].
  - exists 0%nat. split; [lia | reflexivity].
  - destruct (IH l H) as (i & Hi & E). exists (S i). split; [lia | exact E].
Qed.

(** C10.  The first draft stores the first 50 stations of the response and
    the second draft the first 60; whatever the search text, every station
    displayed stands at a position below that bound in the response. *)
Theorem C10_catalog_truncated
    (data : list Station) (s : Early.State) (text : string) :
  let s1 := Draft1.fetchStations (Resolved data) s in
  let s2 := Draft2.fetchStations (Resolved data) s in
  Early.stations s1 = firstn 50 data /\
  Early.stations s2 = firstn 60 data /\
  (List.length (Early.stations s1) <= 50)%nat /\
  (List.length (Early.stations s2) <= 60)%nat /\
  (forall st, In st (Draft1.filteredStations (Early.setSearchTerm text s1)) ->
              exists i, (i < 50)%nat /\ nth_error data i = Some st) /\
  (forall st, In st (Draft2.filteredStations (Early.setSearchTerm text s2)) ->
              exists i, (i < 60)%nat /\ nth_error data i = Some st).
Proof.
  cbv zeta. unfold Draft1.fetchStations, Draft2.fetchStations,
    Draft1.filteredStations, Draft2.filteredStations. cbn -[firstn].
  repeat split; try apply firstn_le_length.
  - intros st H. apply filter_In in H as [H _]. now apply In_firstn_nth.
  - intros st H. apply filter_In in H as [H _]. now apply In_firstn_nth.
Qed.

(** ** Search of the third draft *)

Section Search.
Import Draft3.

Variable env : option string.
Variable enc : string -> string.

Local Abbreviation search_url := (Draft3.search_url env enc).
Local Abbreviation advance := (Draft3.advance env enc).
Local Abbreviation run := (Draft3.run env enc).

Lemma onSearchChange_schedules (now : Z) (text : string) (s : World) :
  blank text = false -> text <> searchTerm s ->
  onSearchChange now text s =
  set_timer (Some (mkTimer (now + 500) text (allStations s)))
            (set_timer None (setSearchTerm text s)).
Proof.
  intros B N. unfold onSearchChange.
  apply String.eqb_neq in N. rewrite N.
  unfold rerun_effect, effect_cleanup, effect_body.
  cbn [searchTerm set_timer setSearchTerm].
  now rewrite trim_truthy, B.
Qed.

Lemma onSearchChange_resets (now : Z) (text : string) (s : World) :
  blank text = true -> text <> searchTerm s ->
  onSearchChange now text s =
  setIsSearching false
    (setStations (allStations s) (set_timer None (setSearchTerm text s))).
Proof.
  intros B N. unfold onSearchChange.
  apply String.eqb_neq in N. rewrite N.
  unfold rerun_effect, effect_cleanup, effect_body.
  cbn [searchTerm set_timer setSearchTerm].
  now rewrite trim_truthy, B.
Qed.

(** A call that leaves the text as it is changes no dependency of the
    effect: nothing runs. *)
Lemma onSearchChange_unchanged (now : Z) (s : World) :
  onSearchChange now (searchTerm s) s = s.
Proof. unfold onSearchChange. now rewrite String.eqb_refl. Qed.

Lemma advance_nothing_due (now : Z) (s : World) :
  nothing_due now s -> advance now s = s.
Proof.
  unfold nothing_due, Draft3.advance. destruct (timer s) as [t|]; auto.
  intros H. apply Z.leb_gt in H. now rewrite H.
Qed.

Lemma advance_no_timer (now : Z) (s : World) :
  timer s = None -> advance now s = s.
Proof. intros H. apply advance_nothing_due. unfold nothing_due. now rewrite H. Qed.

(** Time passing only ever adds requests. *)
Lemma advance_fetches (now : Z) (s : World) :
  exists more, fetches (advance now s) = (fetches s ++ more)%list.
Proof.
  unfold Draft3.advance, fire_timer. destruct (timer s) as [t|].
  - destruct (due t <=? now)%Z.
    + eexists. cbn. reflexivity.
    + exists []. now rewrite app_nil_r.
  - exists []. now rewrite app_nil_r.
Qed.

Lemma nth_error_app_some {A : Type} (l more : list A) (i : nat) (x : A) :
  nth_error l i = Some x -> nth_error (l ++ more) i = Some x.
Proof.
  intros H. rewrite nth_error_app1; auto.
  apply nth_error_Some. congruence.
Qed.

(** *** Out-of-order responses *)

(** C1, as stated, fails: the response to the older search overwrites the
    list of the newer one.  No token is kept and none is compared. *)
Lemma C1_stale_response_overwrites :
  searchTerm out_of_order_end = "jazz" /\
  map rq_query (fetches out_of_order_end) = ["rock"; "jazz"] /\
  stations out_of_order_end = [rock_fm] /\
  stations out_of_order_end <> [smooth_jazz].
Proof.
  vm_compute. repeat split. discriminate.
Qed.

(** C1 (as amended).  Every response is applied when it arrives: of two
    searches issued, the list shows the result of the one whose response
    arrived last, the older one included. *)
Theorem C1_last_response_wins
    (s : World) (t1 t2 : Z) (older newer : nat) (r_older r_newer : Request)
    (d_older d_newer : list Station) :
  nth_error (fetches s) older = Some r_older ->
  nth_error (fetches s) newer = Some r_newer ->
  stations (run [(t1, SearchSettled newer (Resolved d_newer));
                 (t2, SearchSettled older (Resolved d_older))] s) = d_older /\
  stations (run [(t1, SearchSettled older (Resolved d_older));
                 (t2, SearchSettled newer (Resolved d_newer))] s) = d_newer.
Proof.
  intros Ho Hn.
  assert (step : forall now i r d w,
             nth_error (fetches w) i = Some r ->
             handle now (SearchSettled i (Resolved d)) (advance now w)
             = performSearch_settled r (Resolved d) (advance now w)).
  { intros now i r d w H. cbn.
    destruct (advance_fetches now w) as [more E].
    now rewrite E, (nth_error_app_some _ more _ _ H). }
  assert (keep : forall now r d w,
             exists more,
               fetches (performSearch_settled r (Resolved d) (advance now w))
               = (fetches w ++ more)%list).
  { intros now r d w. destruct (advance_fetches now w) as [more E].
    exists more. cbn. exact E. }
  split; cbn [Draft3.run].
  - rewrite (step t1 newer r_newer d_newer s Hn).
    destruct (keep t1 r_newer d_newer s) as [more E].
    rewrite (step t2 older r_older d_older); [reflexivity|].
    rewrite E. now apply nth_error_app_some.
  - rewrite (step t1 older r_older d_older s Ho).
    destruct (keep t1 r_older d_older s) as [more E].
    rewrite (step t2 newer r_newer d_newer); [reflexivity|].
    rewrite E. now apply nth_error_app_some.
Qed.

(** *** Debounce *)

Lemma last_cons_default {A : Type} (l : list A) (a d : A) :
  last (a :: l) d = last l a.
Proof.
  revert a d; induction l as [|b l IH]; intros a d; [reflexivity|].
  change (last (a :: b :: l) d) with (last (b :: l) d).
  now rewrite (IH b d), (IH b a).
Qed.

Lemma rapid_firstn (n : nat) (t : Z) (q : string) (ks : list (Z * string)) :
  rapid t q ks -> rapid t q (firstn n ks).
Proof.
  revert t q ks; induction n as [|n IH]; intros t q [|[t' q'] ks]; simpl;
    auto.
  intros (H1 & H2 & H3 & H4). auto.
Qed.

(** *** Clearing the search *)

(** C6.  A keystroke that leaves the input blank has its effect at once:
    the pending timeout is cleared, the list shown is the whole catalog, no
    request has left and none leaves later on. *)
Theorem C6_blank_query_resets (s : World) (now : Z) (text : string) :
  blank text = true -> text <> searchTerm s ->
  let s' := handle now (Change text) s in
  timer s' = None /\
  stations s' = allStations s /\
  fetches s' = fetches s /\
  (forall later, fetches (advance later s') = fetches s).
Proof.
  intros B N s'. subst s'. cbn [Draft3.handle].
  rewrite onSearchChange_resets by assumption.
  split; [reflexivity|]. split; [reflexivity|]. split; [reflexivity|].
  intros later. now rewrite advance_no_timer.
Qed.

(** *** Failure of the search request *)

(** C7.  A keystroke leaves the non-blank text [text]; its timeout fires and
    the request leaves with the catalog of that moment; the request fails.
    The handler ends normally: the list shown is the catalog filtered on the
    client, [isSearching] is lowered, and the failure is only written to the
    console.  When the text holds no frequency pattern, the filter is the
    policy of the second draft. *)
Theorem C7_failed_search_falls_back
    (s : World) (now fired failed : Z) (text : string) :
  blank text = false -> text <> searchTerm s -> (now + 500 <= fired)%Z ->
  let s1 := advance fired (handle now (Change text) s) in
  let s2 := handle failed
              (SearchSettled (List.length (fetches s)) Rejected) s1 in
  fetches s1 =
    (fetches s ++ [mkRequest (search_url text) text (allStations s)])%list /\
  stations s2 = filter (fallback_matches text) (allStations s) /\
  allStations s2 = allStations s /\
  isSearching s2 = false /\
  console s2 = (console s ++ ["Error searching stations:"])%list /\
  (Regex.frequencyPattern text = None ->
   stations s2 = filter (Draft2.matches text) (allStations s)).
Proof.
  intros B N D s1 s2.
  assert (E1 : fetches s1 =
    (fetches s ++ [mkRequest (search_url text) text (allStations s)])%list).
  { subst s1. cbn [Draft3.handle]. rewrite onSearchChange_schedules by auto.
    unfold Draft3.advance, fire_timer. cbn [timer set_timer due].
    apply Z.leb_le in D. rewrite D. reflexivity. }
  assert (E2 : s2 = performSearch_settled
                      (mkRequest (search_url text) text (allStations s))
                      Rejected s1).
  { subst s2. cbn [Draft3.handle]. rewrite E1.
    rewrite nth_error_app2 by lia. now rewrite Nat.sub_diag. }
  assert (E3 : allStations s1 = allStations s /\ console s1 = console s).
  { subst s1. cbn [Draft3.handle]. rewrite onSearchChange_schedules by auto.
    unfold Draft3.advance, fire_timer. cbn [timer set_timer due].
    apply Z.leb_le in D. rewrite D. split; reflexivity. }
  destruct E3 as [E3 E4].
  assert (S2 : stations s2 = filter (fallback_matches text) (allStations s))
    by (rewrite E2; reflexivity).
  repeat split; auto.
  - rewrite E2. cbn. exact E3.
  - rewrite E2. reflexivity.
  - rewrite E2. cbn. now rewrite E4.
  - intros P. rewrite S2. apply filter_ext. intros st.
    apply fallback_matches_draft2; auto. intros ->. discriminate.
Qed.

End Search.

(** ** The debounce over the table of timeouts *)

Section DebounceFacts.
Import Draft3.

Variable env : option string.
Variable enc : string -> string.

Local Abbreviation search_url := (Draft3.search_url env enc).
Local Abbreviation advance := (Debounce.advance env enc).
Local Abbreviation run := (Debounce.run env enc).

(** On a tidy page the cleanup leaves no timeout pending. *)
Lemma cleanup_tidy (p : Debounce.Page) :
  tidy p ->
  Debounce.effect_cleanup p =
  Debounce.mkPage (Debounce.app p) [] (Debounce.next_id p) None.
Proof.
  destruct p as [w tb n c]. unfold tidy, Debounce.effect_cleanup.
  cbn. destruct tb as [|x [|y tb]]; intros T.
  - destruct c; reflexivity.
  - rewrite T. unfold Debounce.clearTimeout, Debounce.set_table,
      Debounce.set_timeoutId. cbn. now rewrite Nat.eqb_refl.
  - contradiction.
Qed.

Lemma page_advance_nothing_due (now : Z) (p : Debounce.Page) :
  no_timeout_due now p -> advance now p = p.
Proof.
  destruct p as [w tb n c]. unfold no_timeout_due, Debounce.advance.
  cbn. intros F.
  assert (E : filter (Debounce.is_due now) tb = [] /\
              filter (fun x => negb (Debounce.is_due now x)) tb = tb).
  { induction F as [|x l H F [IH1 IH2]]; [split; reflexivity|].
    assert (D : Debounce.is_due now x = false)
      by (unfold Debounce.is_due; now apply Z.leb_gt).
    cbn [filter]. rewrite D. cbn [negb]. now rewrite IH1, IH2. }
  destruct E as [E1 E2]. now rewrite E1, E2.
Qed.

(** A keystroke that changes the text and leaves it non-blank, on a tidy
    page: the timeout of the run before is cleared and one is registered. *)
Lemma page_change_schedules
    (now : Z) (text : string) (p : Debounce.Page) :
  tidy p -> blank text = false -> text <> searchTerm (Debounce.app p) ->
  Debounce.onSearchChange now text p =
  Debounce.mkPage
    (setSearchTerm text (Debounce.app p))
    [Debounce.mkTimeout (Debounce.next_id p)
       (mkTimer (now + 500) text (allStations (Debounce.app p)))]
    (S (Debounce.next_id p)) (Some (Debounce.next_id p)).
Proof.
  intros T B N. unfold Debounce.onSearchChange.
  apply String.eqb_neq in N. rewrite N.
  unfold Debounce.rerun_effect.
  rewrite cleanup_tidy by exact T.
  unfold Debounce.effect_body.
  cbn [Debounce.app Debounce.on_app searchTerm setSearchTerm].
  now rewrite trim_truthy, B.
Qed.

(** While the burst lasts, one timeout is pending, that of the last
    keystroke, and no request leaves. *)
Lemma page_rapid_run (ks : list (Z * string)) :
  forall (t : Z) (q : string) (p : Debounce.Page) (i : nat),
    Debounce.table p =
      [Debounce.mkTimeout i
         (mkTimer (t + 500) q (allStations (Debounce.app p)))] ->
    Debounce.timeoutId p = Some i ->
    searchTerm (Debounce.app p) = q ->
    rapid t q ks ->
    let p' := run (keystrokes ks) p in
    fetches (Debounce.app p') = fetches (Debounce.app p) /\
    exists i',
      Debounce.table p' =
        [Debounce.mkTimeout i'
           (mkTimer (fst (last ks (t, q)) + 500) (snd (last ks (t, q)))
                    (allStations (Debounce.app p)))].
Proof.
  induction ks as [|[t' q'] ks IH]; intros t q p i Tb Ti Hq Hr.
  - cbn. split; [reflexivity|]. now exists i.
  - destruct Hr as (Hgap & Hb & Hne & Hr).
    assert (Td : tidy p) by (unfold tidy; now rewrite Tb, Ti).
    cbn [keystrokes map fst snd Debounce.run Debounce.handle].
    rewrite page_advance_nothing_due.
    2:{ unfold no_timeout_due. rewrite Tb. repeat constructor. cbn. lia. }
    rewrite page_change_schedules by congruence.
    rewrite last_cons_default.
    match goal with |- context [Debounce.run _ _ _ ?w] => set (p1 := w) end.
    destruct (IH t' q' p1 (Debounce.next_id p)) as (F & i' & T');
      try reflexivity; auto.
    split; [exact F|]. exists i'. exact T'.
Qed.

Lemma page_rapid_run_first
    (p : Debounce.Page) (t1 : Z) (q1 : string) (rest : list (Z * string)) :
  tidy p -> no_timeout_due t1 p -> blank q1 = false ->
  q1 <> searchTerm (Debounce.app p) -> rapid t1 q1 rest ->
  let p' := run (keystrokes ((t1, q1) :: rest)) p in
  fetches (Debounce.app p') = fetches (Debounce.app p) /\
  exists i',
    Debounce.table p' =
      [Debounce.mkTimeout i'
         (mkTimer (fst (last rest (t1, q1)) + 500) (snd (last rest (t1, q1)))
                  (allStations (Debounce.app p)))].
Proof.
  intros Td Hd Hb Hne Hr.
  cbn [keystrokes map fst snd Debounce.run Debounce.handle].
  rewrite page_advance_nothing_due by assumption.
  rewrite page_change_schedules by assumption.
  match goal with |- context [Debounce.run _ _ _ ?w] => set (p1 := w) end.
  destruct (page_rapid_run rest t1 q1 p1 (Debounce.next_id p))
    as (F & i' & T'); try reflexivity; auto.
  split; [exact F|]. exists i'. exact T'.
Qed.

(** C5.  Take a page where at most one timeout is pending, the one the
    cleanup of the effect refers to, and none is due; take keystrokes that
    each change the text, leave it non-blank and come less than 500 ms after
    the one before.  No request leaves during the burst, whatever its
    length: the cleanup run by each keystroke clears, by [clearTimeout], the
    timeout of the keystroke before, which would fire otherwise.  After the
    burst the table holds one timeout, that of the last keystroke, and the
    only request that ever leaves is the search for the last text, 500 ms
    after the last keystroke. *)
Theorem C5_debounce_only_last
    (p : Debounce.Page) (t1 : Z) (q1 : string) (rest : list (Z * string)) :
  tidy p -> no_timeout_due t1 p -> blank q1 = false ->
  q1 <> searchTerm (Debounce.app p) -> rapid t1 q1 rest ->
  let ks := (t1, q1) :: rest in
  let tn := fst (last ks (t1, q1)) in
  let qn := snd (last ks (t1, q1)) in
  let p' := run (keystrokes ks) p in
  let w := Debounce.app p in
  (forall n,
      fetches (Debounce.app (run (keystrokes (firstn n ks)) p)) = fetches w) /\
  map Debounce.timeout (Debounce.table p') =
    [mkTimer (tn + 500) qn (allStations w)] /\
  (forall now,
      fetches (Debounce.app (advance now p')) =
      if (tn + 500 <=? now)%Z
      then (fetches w ++ [mkRequest (search_url qn) qn (allStations w)])%list
      else fetches w).
Proof.
  intros Td Hd Hb Hne Hr ks tn qn p' w.
  assert (L : last ks (t1, q1) = last rest (t1, q1))
    by apply last_cons_default.
  destruct (page_rapid_run_first p t1 q1 rest Td Hd Hb Hne Hr)
    as (F & i' & T).
  fold ks in F, T. fold p' in F, T. rewrite <- L in T. fold tn qn w in T, F.
  split; [|split].
  - intros [|n]; [reflexivity|].
    change (firstn (S n) ks) with ((t1, q1) :: firstn n rest).
    apply page_rapid_run_first; auto using rapid_firstn.
  - rewrite T. reflexivity.
  - clearbody p'. intros now. unfold Debounce.advance. rewrite T.
    cbn [filter]. unfold Debounce.is_due at 1 2. cbn [Debounce.timeout due].
    destruct (tn + 500 <=? now)%Z; cbn; now rewrite F.
Qed.

(** What [clearTimeout] is for: a body run without the cleanup before it
    leaves the earlier timeout pending beside the new one, and both fire. *)
Lemma uncleared_timeout_fires
    (p : Debounce.Page) (x : Debounce.Timeout) (now later : Z) :
  Debounce.table p = [x] -> blank (searchTerm (Debounce.app p)) = false ->
  (due (Debounce.timeout x) <= later)%Z -> (now + 500 <= later)%Z ->
  let w := Debounce.app p in
  fetches (Debounce.app (advance later (Debounce.effect_body now p))) =
  (fetches w ++
   [mkRequest (search_url (timer_query (Debounce.timeout x)))
              (timer_query (Debounce.timeout x))
              (timer_catalog (Debounce.timeout x));
    mkRequest (search_url (searchTerm w)) (searchTerm w) (allStations w)])%list.
Proof.
  destruct p as [w tb n c]. cbn [Debounce.table Debounce.app].
  intros -> B D1 D2. unfold Debounce.effect_body.
  cbn [Debounce.app]. rewrite trim_truthy, B.
  unfold Debounce.advance. cbn [negb Debounce.setTimeout Debounce.table
    Debounce.set_timeoutId app filter].
  unfold Debounce.is_due. cbn [Debounce.timeout due].
  apply Z.leb_le in D1, D2. rewrite D1, D2. cbn.
  now rewrite <- app_assoc.
Qed.

(** *** The one slot of [Draft3.World] as a view of the table *)

Lemma tidy_handle (now : Z) (e : Event) (p : Debounce.Page) :
  tidy p -> tidy (Debounce.handle now e p).
Proof.
  intros T. destruct e as [text|i response|response]; cbn [Debounce.handle].
  - unfold Debounce.onSearchChange.
    destruct (text =? searchTerm (Debounce.app p))%string; [exact T|].
    unfold Debounce.rerun_effect. rewrite cleanup_tidy by exact T.
    unfold Debounce.effect_body. destruct (JS.truthy _); cbn; auto.
  - destruct (nth_error _ i); exact T.
  - destruct response as [data|]; [|exact T].
    unfold Debounce.onCatalogSettled, Debounce.rerun_effect.
    rewrite cleanup_tidy by exact T.
    unfold Debounce.effect_body. destruct (JS.truthy _); cbn; auto.
Qed.

Lemma tidy_advance (now : Z) (p : Debounce.Page) :
  tidy p -> tidy (advance now p).
Proof.
  destruct p as [w tb n c]. unfold tidy, Debounce.advance. cbn.
  destruct tb as [|x [|y tb]]; intros T; [exact I| |contradiction].
  cbn. destruct (Debounce.is_due now x); cbn; auto.
Qed.

(** Every page the component reaches is tidy. *)
Lemma tidy_run (trace : list (Z * Event)) (p : Debounce.Page) :
  tidy p -> tidy (run trace p).
Proof.
  revert p; induction trace as [|[now e] trace IH]; intros p T; [exact T|].
  cbn. apply IH, tidy_handle, tidy_advance, T.
Qed.

Lemma abstract_advance (now : Z) (p : Debounce.Page) :
  tidy p ->
  Debounce.abstract (advance now p) =
  Draft3.advance env enc now (Debounce.abstract p).
Proof.
  destruct p as [w tb n c].
  unfold tidy, Debounce.advance, Debounce.abstract, Draft3.advance. cbn.
  destruct tb as [|x [|y tb]]; intros T; [reflexivity| |contradiction].
  cbn. unfold Debounce.is_due.
  destruct (due (Debounce.timeout x) <=? now)%Z; reflexivity.
Qed.

Lemma abstract_handle (now : Z) (e : Event) (p : Debounce.Page) :
  tidy p ->
  Debounce.abstract (Debounce.handle now e p) =
  Draft3.handle now e (Debounce.abstract p).
Proof.
  intros T. destruct e as [text|i response|response];
    cbn [Debounce.handle Draft3.handle].
  - unfold Debounce.onSearchChange, Draft3.onSearchChange.
    change (searchTerm (Debounce.abstract p))
      with (searchTerm (Debounce.app p)).
    destruct (text =? searchTerm (Debounce.app p))%string; [reflexivity|].
    unfold Debounce.rerun_effect. rewrite cleanup_tidy by exact T.
    unfold Debounce.effect_body, Draft3.rerun_effect, Draft3.effect_body,
      Draft3.effect_cleanup, Debounce.abstract.
    cbn. destruct (JS.truthy _); reflexivity.
  - change (fetches (Debounce.abstract p)) with (fetches (Debounce.app p)).
    destruct (nth_error _ i); [|reflexivity].
    destruct response; reflexivity.
  - destruct response as [data|]; [|reflexivity].
    unfold Debounce.onCatalogSettled, Draft3.onCatalogSettled,
      Debounce.rerun_effect.
    rewrite cleanup_tidy by exact T.
    unfold Debounce.effect_body, Draft3.rerun_effect, Draft3.effect_body,
      Draft3.effect_cleanup, Debounce.abstract.
    cbn. destruct (JS.truthy _); reflexivity.
Qed.

(** On the pages the component reaches, [Draft3.run] is [Debounce.run] seen
    through the one slot: the cleanup, run before every body, is what keeps
    a second timeout from ever being pending. *)
Lemma abstract_run (trace : list (Z * Event)) (p : Debounce.Page) :
  tidy p ->
  Debounce.abstract (run trace p) =
  Draft3.run env enc trace (Debounce.abstract p).
Proof.
  revert p; induction trace as [|[now e] trace IH]; intros p T;
    [reflexivity|].
  cbn [Debounce.run Draft3.run].
  rewrite IH by (apply tidy_handle, tidy_advance, T).
  now rewrite abstract_handle, abstract_advance
    by (try apply tidy_advance; exact T).
Qed.

End DebounceFacts.

(** The four keystrokes of [burst] on the loaded page. *)
Lemma C5_debounce_only_last_witness :
  Draft3.fetches (Debounce.app
             (Debounce.run None JS.encodeURIComponent
                (keystrokes (firstn 3 burst)) loaded_page)) = [] /\
  map Debounce.timeout
      (Debounce.table
         (Debounce.run None JS.encodeURIComponent (keystrokes burst)
            loaded_page))
  = [Draft3.mkTimer 900 "jazz" (Draft3.allStations loaded)].
Proof.
  assert (R : rapid 0 "j" [(100, "ja"); (250, "jaz"); (400, "jazz")]%Z).
  { simpl. repeat split; try lia; discriminate. }
  pose proof (C5_debounce_only_last None JS.encodeURIComponent loaded_page
                0 "j" [(100, "ja"); (250, "jaz"); (400, "jazz")]%Z
                I (Forall_nil _) eq_refl ltac:(discriminate) R) as H.
  cbv zeta in H. destruct H as (H1 & H2 & _).
  exact (conj (H1 3%nat) H2).
Defined.

(** ** Playback of the third draft *)

Section Playback.
Import Draft3.

Variable env : option string.
Variable enc : string -> string.

Local Abbreviation proxyUrl := (Draft3.proxyUrl env enc).
Local Abbreviation playStation := (Draft3.playStation env enc).
Local Abbreviation select := (Draft3.select env enc).
Local Abbreviation audio_step := (Draft3.audio_step env enc).

Lemma skipn_app_length {A : Type} (l more : list A) :
  skipn (List.length l) (l ++ more) = more.
Proof. induction l as [|x l IH]; simpl; auto. Qed.

Lemma is_current_self (station : Station) (s : World) :
  currentStation s = Some station -> is_current station s = true.
Proof. unfold is_current. intros ->. apply String.eqb_refl. Qed.

Lemma idle_no_station (s : World) :
  playbackState s = Idle -> currentStation s = None.
Proof.
  unfold playbackState. destruct (currentStation s); [|reflexivity].
  destruct (isPlaying s); discriminate.
Qed.

(** A call that is not a pause, on an attached element: the calls made and
    the state left, whatever [play()] does afterwards. *)
Lemma playStation_starts (station : Station) (s : World) (a : Audio) :
  is_current station s && isPlaying s = false -> audioRef s = Some a ->
  let v := if isMuted s then 0 else volume s in
  let s' := fst (playStation station s) in
  snd (playStation station s) = true /\
  currentStation s' = Some station /\ isPlaying s' = true /\
  audioRef s' = Some (mkAudio (proxyUrl station) v) /\
  isMuted s' = isMuted s /\ volume s' = volume s /\ console s' = console s /\
  audioCalls s' =
    (audioCalls s ++
     [CallPause; SetSrc (proxyUrl station); SetVolume v; CallPlay])%list.
Proof.
  intros G A. unfold Draft3.playStation. rewrite G.
  unfold pause_if_attached. rewrite A. cbn.
  repeat split. now rewrite <- !app_assoc.
Qed.

(** C2 (as amended).  From Idle, three calls of [playStation] on the same
    station, [play()] succeeding, lead to Playing, Paused and Playing again.
    The second call only pauses the element.  The third call does not resume
    it: it runs the same start as the first one, pausing, assigning the proxy
    address to [src] again, assigning the level and calling [play()]. *)
Theorem C2_select_three_times (s : World) (a : Audio) (A : Station) :
  playbackState s = Idle -> audioRef s = Some a ->
  let s1 := select A (Resolved tt) s in
  let s2 := select A (Resolved tt) s1 in
  let s3 := select A (Resolved tt) s2 in
  let v := if isMuted s then 0 else volume s in
  playbackState s1 = Playing A /\
  playbackState s2 = Paused A /\
  playbackState s3 = Playing A /\
  new_calls s s1 = [CallPause; SetSrc (proxyUrl A); SetVolume v; CallPlay] /\
  new_calls s1 s2 = [CallPause] /\
  new_calls s2 s3 = [CallPause; SetSrc (proxyUrl A); SetVolume v; CallPlay].
Proof.
  intros I At s1 s2 s3 v.
  apply idle_no_station in I.
  assert (G1 : is_current A s && isPlaying s = false)
    by (unfold is_current; now rewrite I).
  destruct (playStation_starts A s a G1 At)
    as (W1 & C1 & P1 & R1 & M1 & V1 & _ & L1).
  assert (E1 : s1 = fst (playStation A s)).
  { subst s1. unfold Draft3.select.
    destruct (playStation A s) as [w b]. simpl in *. now rewrite W1. }
  rewrite <- E1 in *. clearbody s1.
  assert (E2 : s2 = setIsPlaying false
                      (on_audio (mkAudio (proxyUrl A) v) CallPause s1)).
  { subst s2. unfold Draft3.select, Draft3.playStation.
    rewrite (is_current_self A s1 C1), P1. cbn [andb].
    unfold pause_if_attached. now rewrite R1. }
  assert (G3 : is_current A s2 && isPlaying s2 = false)
    by (rewrite E2; cbn; apply andb_false_r).
  assert (At3 : audioRef s2 = Some (mkAudio (proxyUrl A) v))
    by (rewrite E2; reflexivity).
  destruct (playStation_starts A s2 _ G3 At3)
    as (W3 & C3 & P3 & _ & _ & _ & _ & L3).
  assert (E3 : s3 = fst (playStation A s2)).
  { subst s3. unfold Draft3.select.
    destruct (playStation A s2) as [w b]. simpl in *. now rewrite W3. }
  assert (MV : (if isMuted s2 then 0 else volume s2) = v).
  { rewrite E2. cbn. unfold v. now rewrite M1, V1. }
  rewrite MV in L3. rewrite <- E3 in *. clearbody s3.
  unfold playbackState, new_calls.
  rewrite C1, P1, C3, P3, L1, L3, !skipn_app_length.
  rewrite E2. cbn. rewrite C1, L1.
  repeat split.
  rewrite <- (skipn_app_length
                (audioCalls s ++ [CallPause; SetSrc (proxyUrl A);
                                  SetVolume v; CallPlay]) [CallPause]) at 2.
  reflexivity.
Qed.

(** C3 (as amended).  A call of [playStation] that is not a pause and whose
    start fails, the ref being null or [play()] rejecting, leaves the station
    selected with [isPlaying] lowered, the state of a paused station; the
    failure is written to the console; [play()] has been called once at
    most. *)
Theorem C3_failed_start (s : World) (A : Station) :
  is_current A s && isPlaying s = false ->
  let s' := select A Rejected s in
  currentStation s' = Some A /\
  isPlaying s' = false /\
  playbackState s' = Paused A /\
  console s' = (console s ++ ["Error playing station:"])%list /\
  List.length (filter is_CallPlay (new_calls s s')) =
    match audioRef s with Some _ => 1%nat | None => 0%nat end.
Proof.
  intros G s'. subst s'. unfold Draft3.select.
  destruct (audioRef s) as [a|] eqn:At.
  - destruct (playStation_starts A s a G At)
      as (W & C & P & R & M & V & K & L).
    destruct (playStation A s) as [w b]. simpl in *. subst b.
    unfold playbackState, new_calls. cbn. rewrite C, K, L, skipn_app_length.
    repeat split.
  - unfold Draft3.playStation. rewrite G.
    unfold pause_if_attached. rewrite At. cbn. rewrite At. cbn.
    unfold playbackState, new_calls. cbn.
    repeat split. now rewrite skipn_all.
Qed.

(** C8.  With the element attached and the sound on: after the level is set
    to [v], muting keeps [v] stored and silences the element, and unmuting
    keeps [v] stored and gives the element the level [v] again.  Muting and
    unmuting never change the stored level. *)
Theorem C8_mute_keeps_volume (s : World) (a : Audio) (v : Q) :
  audioRef s = Some a -> isMuted s = false ->
  let s1 := handleVolumeChange v s in
  let s2 := toggleMute s1 in
  let s3 := toggleMute s2 in
  (volume s1 = v /\ option_map level (audioRef s1) = Some v) /\
  (isMuted s2 = true /\ volume s2 = v /\
   option_map level (audioRef s2) = Some 0) /\
  (isMuted s3 = false /\ volume s3 = v /\
   option_map level (audioRef s3) = Some v) /\
  (forall w, volume (toggleMute w) = volume w).
Proof.
  intros At M s1 s2 s3. subst s1 s2 s3.
  unfold handleVolumeChange. rewrite At, M. cbn. rewrite !M. cbn.
  repeat split.
  intros w. unfold toggleMute.
  destruct (audioRef w); [destruct (isMuted w)|]; reflexivity.
Qed.

(** C9.  Every operation on the audio output keeps the element, when
    attached, at level 0 under mute and at the stored level otherwise.
    Under mute, a change of volume is stored and leaves the element at 0, and
    the next unmute gives the element the level stored last. *)
Theorem C9_level_follows_mute (s : World) :
  level_invariant s ->
  (forall op, level_invariant (audio_step op s)) /\
  (forall a v, audioRef s = Some a -> isMuted s = true ->
     let s1 := handleVolumeChange v s in
     volume s1 = v /\
     option_map level (audioRef s1) = Some 0 /\
     isMuted (toggleMute s1) = false /\
     option_map level (audioRef (toggleMute s1)) = Some v).
Proof.
  intros H. split.
  - intros op. unfold level_invariant in *.
    destruct op as [station|outcome| |v| |]; cbn [Draft3.audio_step].
    + unfold Draft3.playStation, pause_if_attached.
      destruct (is_current station s && isPlaying s).
      * destruct (audioRef s) as [a|] eqn:At; cbn; intros a' E.
        -- injection E as <-. now apply H.
        -- congruence.
      * destruct (audioRef s) as [a|] eqn:At; cbn; try rewrite At; cbn;
           intros a' E; [|congruence].
        now injection E as <-.
    + destruct outcome; cbn; exact H.
    + unfold toggleMute.
      destruct (audioRef s) as [a|] eqn:At; [|now rewrite At].
      destruct (isMuted s); cbn; intros a' E; now injection E as <-.
    + unfold handleVolumeChange.
      destruct (audioRef s) as [a|] eqn:At.
      * specialize (H a eq_refl).
        destruct (isMuted s) eqn:M; cbn; rewrite ?At, ?M;
          intros a' E; now injection E as <-.
      * cbn. rewrite At. discriminate.
    + cbn. exact H.
    + cbn. exact H.
  - intros a v At M. specialize (H a At). rewrite M in H.
    unfold handleVolumeChange. rewrite At, M. cbn.
    unfold toggleMute. cbn. rewrite At, M. cbn. rewrite H. repeat split.
Qed.

End Playback.

(** ** The theorems at work *)

Import Draft3.

(** C2, as stated, fails in its last part: the third call, on the paused
    station, assigns [src] again. *)
Lemma C2_third_call_assigns_src :
  playbackState listening = Playing rock_fm /\
  playbackState paused_once = Paused rock_fm /\
  playbackState selected_again = Playing rock_fm /\
  new_calls paused_once selected_again =
    [ CallPause;
      SetSrc "http://localhost:8001/api/stream/http%3A%2F%2Fc.example%2Flive";
      SetVolume (7 # 10);
      CallPlay ] /\
  existsb is_SetSrc (new_calls paused_once selected_again) = true.
Proof. vm_compute. repeat split. Qed.

(** C3, as stated, fails: after a failed start the station stays selected,
    in the very state a pause leaves, and nothing but the console tells the
    failure. *)
Lemma C3_failed_start_is_not_idle :
  playbackState failed_start = Paused rock_fm /\
  playbackState failed_start <> Idle /\
  playbackState failed_start = playbackState paused_once /\
  console failed_start = ["Error playing station:"].
Proof. vm_compute. repeat split. discriminate. Qed.

(** Two searches in flight, settled in either order. *)
Lemma C1_last_response_wins_witness :
  stations (run None JS.encodeURIComponent
              [ (2300, SearchSettled 1 (Resolved [smooth_jazz]));
                (2400, SearchSettled 0 (Resolved [rock_fm])) ]%Z
              two_searches) = [rock_fm] /\
  stations (run None JS.encodeURIComponent
              [ (2300, SearchSettled 0 (Resolved [rock_fm]));
                (2400, SearchSettled 1 (Resolved [smooth_jazz])) ]%Z
              two_searches) = [smooth_jazz].
Proof.
  eapply (C1_last_response_wins None JS.encodeURIComponent two_searches);
    vm_compute; reflexivity.
Defined.

(** rock_fm selected three times on the mounted component. *)
Lemma C2_select_three_times_witness :
  playbackState Draft3.mounted = Idle /\
  playbackState listening = Playing rock_fm /\
  playbackState paused_once = Paused rock_fm /\
  playbackState selected_again = Playing rock_fm.
Proof.
  split; [reflexivity|].
  pose proof (C2_select_three_times None JS.encodeURIComponent mounted
                fresh_audio rock_fm eq_refl eq_refl) as H.
  cbv zeta in H. destruct H as (H1 & H2 & H3 & _).
  exact (conj H1 (conj H2 H3)).
Defined.

(** rock_fm selected on the mounted component, [play()] rejecting. *)
Lemma C3_failed_start_witness :
  currentStation failed_start = Some rock_fm /\
  isPlaying failed_start = false /\
  playbackState failed_start = Paused rock_fm.
Proof.
  pose proof (C3_failed_start None JS.encodeURIComponent mounted rock_fm
                eq_refl) as H.
  cbv zeta in H. destruct H as (H1 & H2 & H3 & _).
  exact (conj H1 (conj H2 H3)).
Defined.

(** Two spaces typed over rock while its timeout is pending. *)
Lemma C6_blank_query_resets_witness :
  timer typing <> None /\
  timer (handle 1200 (Change "  ") typing) = None /\
  stations (handle 1200 (Change "  ") typing) = allStations typing /\
  fetches (handle 1200 (Change "  ") typing) = fetches typing.
Proof.
  pose proof (C6_blank_query_resets None JS.encodeURIComponent typing 1200
                "  " eq_refl ltac:(discriminate)) as H.
  cbv zeta in H. destruct H as (H1 & H2 & H3 & _).
  split; [discriminate | exact (conj H1 (conj H2 H3))].
Defined.

(** C7, as stated, fails on a text that holds the frequency pattern: the
    search for 92.3 FM fails on a catalog holding Hot 92.3, a station of the
    policy, and the list shown is empty. *)
Lemma C7_frequency_text_shows_nothing :
  allStations frequency_failed = [hot_923] /\
  policy "92.3 FM" hot_923 /\
  stations frequency_failed = [].
Proof.
  split; [reflexivity|]. split; [|reflexivity].
  change (contains "Hot 92.3" "92.3"). now apply includes_spec.
Qed.

(** The search for news fails; the one station tagged News is shown. *)
Lemma C7_failed_search_falls_back_witness :
  stations news_failed = [world_service] /\ isSearching news_failed = false.
Proof.
  pose proof (C7_failed_search_falls_back None JS.encodeURIComponent loaded
                1000 1500 1700 "news" eq_refl ltac:(discriminate)
                ltac:(lia)) as H.
  cbv zeta in H. destruct H as (_ & H2 & _ & H4 & _).
  split; [exact H2 | exact H4].
Defined.

(** Volume 0.4, mute, unmute while rock_fm plays. *)
Lemma C8_mute_keeps_volume_witness :
  volume (toggleMute (toggleMute (handleVolumeChange (4 # 10) listening)))
  = 4 # 10 /\
  option_map level
    (audioRef (toggleMute (toggleMute (handleVolumeChange (4 # 10) listening))))
  = Some (4 # 10).
Proof.
  pose proof (C8_mute_keeps_volume listening
                (mkAudio (proxyUrl None JS.encodeURIComponent rock_fm) (7 # 10))
                (4 # 10) eq_refl eq_refl) as H.
  cbv zeta in H. destruct H as (_ & _ & (_ & H1 & H2) & _).
  split; [exact H1 | exact H2].
Defined.

(** While rock_fm plays the invariant holds, and three operations keep it. *)
Lemma C9_level_follows_mute_witness :
  level_invariant listening /\
  level_invariant
    (audio_step None JS.encodeURIComponent OpToggleMute listening) /\
  level_invariant
    (audio_step None JS.encodeURIComponent (OpVolume (4 # 10)) listening) /\
  level_invariant
    (audio_step None JS.encodeURIComponent (OpPlay hot_923) listening).
Proof.
  assert (L : level_invariant listening).
  { intros a E. injection E as <-. reflexivity. }
  pose proof (C9_level_follows_mute None JS.encodeURIComponent listening L)
    as [H _].
  exact (conj L (conj (H _) (conj (H _) (H _)))).
Defined.

(** ** More on the search of the third draft *)

Section SearchInvariants.

Variable env : option string.
Variable enc : string -> string.

Local Abbreviation advance := (Draft3.advance env enc).
Local Abbreviation run := (Draft3.run env enc).

Lemma effect_body_fresh (now : Z) (s : World) :
  timer s = None -> timer_fresh (effect_body now s).
Proof.
  intros T. unfold effect_body, timer_fresh.
  rewrite trim_truthy. destruct (blank (searchTerm s)) eqn:B; cbn.
  - now rewrite T.
  - auto.
Qed.

Lemma handle_fresh (now : Z) (e : Event) (s : World) :
  timer_fresh s -> timer_fresh (handle now e s).
Proof.
  intros F. destruct e as [text|i response|response]; cbn [handle].
  - unfold onSearchChange. destruct (text =? searchTerm s)%string; auto.
    apply effect_body_fresh. reflexivity.
  - destruct (nth_error (fetches s) i) as [r|]; auto.
    destruct response; exact F.
  - destruct response as [data|]; cbn [onCatalogSettled].
    + apply effect_body_fresh. reflexivity.
    + exact F.
Qed.

Lemma handle_fetches (now : Z) (e : Event) (s : World) :
  fetches (handle now e s) = fetches s.
Proof.
  destruct e as [text|i response|response]; cbn [handle].
  - unfold onSearchChange. destruct (text =? searchTerm s)%string; auto.
    unfold rerun_effect, effect_body.
    destruct (JS.truthy _); reflexivity.
  - destruct (nth_error (fetches s) i) as [r|]; auto.
    destruct response; reflexivity.
  - destruct response as [data|]; cbn [onCatalogSettled]; auto.
    unfold rerun_effect, effect_body.
    destruct (JS.truthy _); reflexivity.
Qed.

Lemma advance_fresh (now : Z) (s : World) :
  timer_fresh s -> timer_fresh (advance now s).
Proof.
  intros F. unfold Draft3.advance, fire_timer.
  destruct (timer s) as [t|] eqn:T; auto.
  destruct (due t <=? now)%Z; auto.
  unfold timer_fresh. cbn. exact I.
Qed.

Lemma advance_no_blank (now : Z) (s : World) :
  timer_fresh s -> no_blank_request s -> no_blank_request (advance now s).
Proof.
  unfold timer_fresh, no_blank_request, Draft3.advance, fire_timer.
  intros F N. destruct (timer s) as [t|] eqn:T; auto.
  destruct (due t <=? now)%Z; auto.
  cbn. apply Forall_app. split; auto.
  constructor; auto. cbn. destruct F as (Q & _ & B). now rewrite Q.
Qed.

Lemma run_search_invariant (trace : list (Z * Event)) (s : World) :
  timer_fresh s -> no_blank_request s ->
  timer_fresh (run trace s) /\ no_blank_request (run trace s).
Proof.
  revert s; induction trace as [|[now e] trace IH]; intros s F N; cbn; auto.
  apply IH.
  - apply handle_fresh, advance_fresh, F.
  - unfold no_blank_request. rewrite handle_fetches.
    now apply advance_no_blank.
Qed.

(** X1.  Whatever happens (keystrokes, responses and failures of searches,
    the catalog arriving, time passing), a pending timeout is never stale: it
    was registered for the text and the catalog the component holds now. *)
Theorem X1_pending_timeout_is_current
    (trace : list (Z * Event)) (s : World) :
  timer_fresh s -> timer_fresh (run trace s).
Proof.
  revert s; induction trace as [|[now e] trace IH]; intros s F; cbn; auto.
  apply IH, handle_fresh, advance_fresh, F.
Qed.

(** X2.  No search request ever leaves for a blank text. *)
Theorem X2_no_request_for_blank_text
    (trace : list (Z * Event)) (s : World) :
  timer_fresh s -> no_blank_request s -> no_blank_request (run trace s).
Proof. intros F N. now apply run_search_invariant. Qed.

(** X3.  When the catalog arrives it is shown at once, whatever list was
    shown before, and no request leaves.  With a blank search text no
    timeout is left; otherwise the debounce starts again from that moment,
    for the same text and the new catalog. *)
Theorem X3_catalog_arrival_restarts_debounce
    (s : World) (now : Z) (data : list Station) :
  let s' := handle now (CatalogSettled (Resolved data)) s in
  allStations s' = data /\
  stations s' = data /\
  isLoading s' = false /\
  fetches s' = fetches s /\
  timer s' = if blank (searchTerm s) then None
             else Some (mkTimer (now + 500) (searchTerm s) data).
Proof.
  cbv zeta. cbn [handle onCatalogSettled].
  unfold rerun_effect, effect_body, effect_cleanup, fetchStations.
  cbn [searchTerm set_timer setIsLoading setStations setAllStations].
  rewrite trim_truthy. destruct (blank (searchTerm s)); cbn; auto.
Qed.

End SearchInvariants.

(** Nothing is pending on the mounted component; through the trace
    [out_of_order] no stale timeout appears. *)
Lemma X1_pending_timeout_is_current_witness :
  timer_fresh out_of_order_end.
Proof.
  exact (X1_pending_timeout_is_current None JS.encodeURIComponent
           out_of_order mounted I).
Defined.

(** Nothing has been sent by the mounted component; the two requests of
    the trace [out_of_order] carry texts that are not blank. *)
Lemma X2_no_request_for_blank_text_witness :
  no_blank_request out_of_order_end.
Proof.
  exact (X2_no_request_for_blank_text None JS.encodeURIComponent
           out_of_order mounted I (Forall_nil _)).
Defined.

(** ** More on the playback of the third draft *)

Section PlaybackInvariants.

Variable env : option string.
Variable enc : string -> string.

Local Abbreviation proxyUrl := (Draft3.proxyUrl env enc).
Local Abbreviation playStation := (Draft3.playStation env enc).
Local Abbreviation select := (Draft3.select env enc).
Local Abbreviation audio_step := (Draft3.audio_step env enc).
Local Abbreviation audio_run := (audio_run env enc).

Lemma select_starts (station : Station) (s : World) (a : Audio) :
  is_current station s && isPlaying s = false -> audioRef s = Some a ->
  select station (Resolved tt) s = fst (playStation station s).
Proof.
  intros G At. unfold Draft3.select.
  destruct (playStation_starts env enc station s a G At) as (W & _).
  destruct (playStation station s) as [w b]. simpl in *. now rewrite W.
Qed.

(** X4.  Stations are told apart by [uuid] alone.  While a station plays, a
    call with any record of the same [uuid], whatever its other fields, is a
    pause: the record held is kept, the element is paused and neither its
    source nor its level is assigned. *)
Theorem X4_same_uuid_pauses
    (s : World) (held station : Station) (outcome : Settled unit) :
  currentStation s = Some held -> uuid held = uuid station ->
  isPlaying s = true ->
  let s' := select station outcome s in
  currentStation s' = Some held /\
  isPlaying s' = false /\
  audioRef s' = audioRef s /\
  new_calls s s' = match audioRef s with
                   | Some _ => [CallPause]
                   | None => []
                   end.
Proof.
  intros C U P. cbv zeta.
  unfold Draft3.select, Draft3.playStation, is_current.
  rewrite C, U, String.eqb_refl, P. cbn [andb].
  unfold pause_if_attached, new_calls.
  destruct (audioRef s) as [a|] eqn:At; cbn; rewrite ?C, ?At.
  - repeat split. apply skipn_app_length.
  - repeat split. apply skipn_all.
Qed.

(** X5.  A call with a station of another [uuid], the element attached and
    [play()] succeeding, switches to that station.  The element is paused
    before its source is replaced, and the level is assigned before
    [play()] is called. *)
Theorem X5_switch_pauses_first
    (s : World) (a : Audio) (held station : Station) :
  currentStation s = Some held -> uuid held <> uuid station ->
  audioRef s = Some a ->
  let v := if isMuted s then 0 else volume s in
  let s' := select station (Resolved tt) s in
  playbackState s' = Playing station /\
  audioRef s' = Some (mkAudio (proxyUrl station) v) /\
  new_calls s s' =
    [CallPause; SetSrc (proxyUrl station); SetVolume v; CallPlay].
Proof.
  intros C U At v s'.
  assert (G : is_current station s && isPlaying s = false).
  { unfold is_current. rewrite C. apply String.eqb_neq in U. now rewrite U. }
  subst s'. rewrite (select_starts station s a G At).
  destruct (playStation_starts env enc station s a G At)
    as (_ & C' & P' & R' & _ & _ & _ & L').
  unfold playbackState, new_calls. rewrite C', P', L', skipn_app_length.
  auto.
Qed.

(** X6.  When the stream ends or fails on its own, the station stays
    selected and the element is left alone.  The next call with that station
    is then a full start, not a pause. *)
Theorem X6_ended_then_select_restarts
    (s : World) (a : Audio) (A : Station) :
  currentStation s = Some A -> audioRef s = Some a ->
  let v := if isMuted s then 0 else volume s in
  let s' := select A (Resolved tt) (onEnded s) in
  onError s = onEnded s /\
  playbackState (onEnded s) = Paused A /\
  audioCalls (onEnded s) = audioCalls s /\
  playbackState s' = Playing A /\
  new_calls (onEnded s) s' =
    [CallPause; SetSrc (proxyUrl A); SetVolume v; CallPlay].
Proof.
  intros C At v s'.
  assert (G : is_current A (onEnded s) && isPlaying (onEnded s) = false)
    by apply andb_false_r.
  assert (At' : audioRef (onEnded s) = Some a) by exact At.
  subst s'. rewrite (select_starts A (onEnded s) a G At').
  destruct (playStation_starts env enc A (onEnded s) a G At')
    as (_ & C' & P' & _ & _ & _ & _ & L').
  unfold playbackState, new_calls. rewrite C', P', L', skipn_app_length.
  cbn. rewrite C. auto.
Qed.

(** X7.  With the element attached at the level the mute flag asks for,
    muting and unmuting (or unmuting and muting) brings back the same flag,
    the same stored level and the same element. *)
Theorem X7_toggleMute_twice (s : World) (a : Audio) :
  audioRef s = Some a -> level_invariant s ->
  same_sound (toggleMute (toggleMute s)) s.
Proof.
  intros At L. specialize (L a At). unfold same_sound, toggleMute.
  rewrite At. destruct a as [u l]. cbn in L.
  destruct (isMuted s) eqn:M; cbn; rewrite ?M; cbn; subst l; auto.
Qed.

(** X8.  Changing the volume and toggling the mute flag commute: in either
    order they leave the same flag, the same stored level and the same
    element, attached or not, muted or not. *)
Theorem X8_volume_and_mute_commute (s : World) (v : Q) :
  same_sound (toggleMute (handleVolumeChange v s))
             (handleVolumeChange v (toggleMute s)).
Proof.
  unfold same_sound, toggleMute, handleVolumeChange.
  destruct (audioRef s) as [a|] eqn:At; cbn; rewrite ?At; cbn.
  - destruct (isMuted s) eqn:M; cbn; rewrite ?At, ?M; cbn; auto.
  - rewrite At. auto.
Qed.

Lemma audio_step_settled (op : AudioOp) (s : World) :
  level_invariant s \/ isMuted s = false ->
  level_invariant (audio_step op s) \/ isMuted (audio_step op s) = false.
Proof.
  intros H. unfold level_invariant in *.
  destruct op as [station|outcome| |v| |]; cbn [Draft3.audio_step].
  - unfold Draft3.playStation, pause_if_attached.
    destruct (is_current station s && isPlaying s).
    + destruct (audioRef s) as [a|] eqn:At; cbn.
      * destruct H as [H|H]; [left | now right].
        intros a' E. injection E as <-. now apply H.
      * left. congruence.
    + left. destruct (audioRef s) as [a|] eqn:At; cbn; try rewrite At; cbn;
        intros a' E; [|congruence].
      now injection E as <-.
  - destruct outcome; cbn; exact H.
  - unfold toggleMute. left.
    destruct (audioRef s) as [a|] eqn:At; [|now rewrite At].
    destruct (isMuted s); cbn; intros a' E; now injection E as <-.
  - unfold handleVolumeChange.
    destruct (audioRef s) as [a|] eqn:At.
    + destruct (isMuted s) eqn:M; cbn; rewrite ?At, ?M.
      * destruct H as [H|H]; [left | discriminate].
        intros a' E. injection E as <-. exact (H a eq_refl).
      * left. intros a' E. now injection E as <-.
    + left. cbn. rewrite At. discriminate.
  - cbn. exact H.
  - cbn. exact H.
Qed.

Lemma audio_run_settled (ops : list AudioOp) (s : World) :
  level_invariant s \/ isMuted s = false ->
  level_invariant (audio_run ops s) \/ isMuted (audio_run ops s) = false.
Proof.
  revert s; induction ops as [|op ops IH]; intros s H; [exact H|].
  apply (IH (audio_step op s)). now apply audio_step_settled.
Qed.

(** X9.  Start with the sound on, the element at any level.  After any
    sequence of operations on the audio output, a muted player is silent:
    if the mute flag is set the attached element is at level 0. *)
Theorem X9_muted_is_silent (ops : list AudioOp) (s : World) (a : Audio) :
  isMuted s = false ->
  isMuted (audio_run ops s) = true ->
  audioRef (audio_run ops s) = Some a ->
  level a = 0.
Proof.
  intros M M' At.
  destruct (audio_run_settled ops s (or_intror M)) as [L|L]; [|congruence].
  rewrite (L a At), M'. reflexivity.
Qed.

Lemma audio_step_src (op : AudioOp) (s : World) :
  src_follows env enc s -> src_follows env enc (audio_step op s).
Proof.
  intros H. unfold src_follows in *.
  destruct op as [station|outcome| |v| |]; cbn [Draft3.audio_step].
  - unfold Draft3.playStation, pause_if_attached.
    destruct (is_current station s && isPlaying s).
    + destruct (audioRef s) as [a|] eqn:At; cbn; intros a' E.
      * injection E as <-. now apply H.
      * congruence.
    + destruct (audioRef s) as [a|] eqn:At; cbn; try rewrite At; cbn;
        intros a' E; [|congruence].
      now injection E as <-.
  - destruct outcome; cbn; exact H.
  - unfold toggleMute.
    destruct (audioRef s) as [a|] eqn:At; [|now rewrite At].
    specialize (H a eq_refl).
    destruct (isMuted s); cbn; intros a' E; now injection E as <-.
  - unfold handleVolumeChange.
    destruct (audioRef s) as [a|] eqn:At.
    + specialize (H a eq_refl).
      destruct (isMuted s) eqn:M; cbn; rewrite ?At;
        intros a' E; now injection E as <-.
    + cbn. rewrite At. discriminate.
  - cbn. exact H.
  - cbn. exact H.
Qed.

(** X10.  After any sequence of operations on the audio output, the source
    of the attached element is still the proxy address of the station
    selected: the element never holds the address of another station, nor
    any address while no station is selected. *)
Theorem X10_src_is_proxy_of_selected (ops : list AudioOp) (s : World) :
  src_follows env enc s -> src_follows env enc (audio_run ops s).
Proof.
  revert s; induction ops as [|op ops IH]; intros s H; [exact H|].
  apply (IH (audio_step op s)). now apply audio_step_src.
Qed.

Lemma audio_step_keeps_station (op : AudioOp) (s : World) :
  currentStation s <> None -> currentStation (audio_step op s) <> None.
Proof.
  intros H. destruct op as [station|outcome| |v| |]; cbn [Draft3.audio_step].
  - unfold Draft3.playStation, pause_if_attached.
    destruct (is_current station s && isPlaying s).
    + destruct (audioRef s); exact H.
    + destruct (audioRef s) as [a|] eqn:At; cbn; try rewrite At; cbn;
        discriminate.
  - destruct outcome; exact H.
  - unfold toggleMute.
    destruct (audioRef s); [destruct (isMuted s)|]; exact H.
  - unfold handleVolumeChange.
    destruct (audioRef s); [destruct (isMuted s)|]; exact H.
  - exact H.
  - exact H.
Qed.

(** X11.  No operation deselects: once a station is selected, the playback
    state is never Idle again, whatever is clicked and whether the stream
    ends or fails. *)
Theorem X11_never_idle_again (ops : list AudioOp) (s : World) :
  playbackState s <> Idle -> playbackState (audio_run ops s) <> Idle.
Proof.
  assert (E : forall w, playbackState w <> Idle <-> currentStation w <> None).
  { intros w. unfold playbackState.
    destruct (currentStation w); [destruct (isPlaying w)|];
      split; congruence. }
  rewrite !E. revert s; induction ops as [|op ops IH]; intros s H; [exact H|].
  apply (IH (audio_step op s)). now apply audio_step_keeps_station.
Qed.

End PlaybackInvariants.

(** X12.  In a list of stations with distinct [uuid]s, one card at most
    carries the pause icon. *)
Theorem X12_one_pause_icon (s : World) (l : list Station) :
  NoDup (map uuid l) ->
  (List.length (filter (Render.shows_pause s) l) <= 1)%nat.
Proof.
  assert (same : forall x y, Render.shows_pause s x = true ->
                             Render.shows_pause s y = true ->
                             uuid x = uuid y).
  { unfold Render.shows_pause, is_current. intros x y.
    destruct (currentStation s) as [c|]; [|discriminate].
    rewrite !andb_true_iff. intros [X _] [Y _].
    apply String.eqb_eq in X, Y. congruence. }
  induction l as [|x l IH]; intros N; [simpl; lia|].
  inversion N as [|u us Hnot N']; subst. cbn [filter].
  destruct (Render.shows_pause s x) eqn:X; [|auto].
  destruct (filter (Render.shows_pause s) l) as [|y rest] eqn:F;
    [simpl; lia|].
  exfalso. assert (Y : In y (filter (Render.shows_pause s) l))
    by (rewrite F; now left).
  apply filter_In in Y as [Y1 Y2]. apply Hnot.
  rewrite (same x y X Y2). now apply in_map.
Qed.

(** ** More on the filters and on what is displayed *)

Lemma includes_empty (hay : string) : JS.includes hay "" = true.
Proof. apply includes_spec. now exists "", hay. Qed.

(** X18.  With an empty search text the first two drafts show every station
    they hold, in the order held. *)
Theorem X18_empty_text_shows_all (s : Early.State) :
  Draft1.filteredStations (Early.setSearchTerm "" s) = Early.stations s /\
  Draft2.filteredStations (Early.setSearchTerm "" s) = Early.stations s.
Proof.
  unfold Draft1.filteredStations, Draft2.filteredStations. cbn.
  split; (rewrite <- (filter_true (Early.stations s)) at 2);
    apply filter_ext; intros st.
  - unfold Draft1.matches. cbn. now rewrite includes_empty.
  - unfold Draft2.matches. cbn. now rewrite includes_empty.
Qed.

(** *** The frequency pattern and letter case *)

Lemma is_digit_lower (c : ascii) :
  JS.is_digit (JS.lower_char c) = JS.is_digit c /\
  (JS.is_digit c = true -> JS.lower_char c = c) /\
  (JS.is_space (JS.lower_char c) = JS.is_space c).
Proof.
  destruct c as [[] [] [] [] [] [] [] []]; vm_compute; repeat split;
    congruence.
Qed.

Lemma take_upto_lower (n : nat) (s : string) :
  Regex.take_upto JS.is_digit n (JS.toLowerCase s) =
  (fst (Regex.take_upto JS.is_digit n s),
   JS.toLowerCase (snd (Regex.take_upto JS.is_digit n s))).
Proof.
  revert s; induction n as [|n IH]; intros [|c s]; try reflexivity.
  cbn [JS.toLowerCase Regex.take_upto].
  destruct (is_digit_lower c) as (D & K & _). rewrite D.
  destruct (JS.is_digit c) eqn:E; [|reflexivity].
  rewrite IH, (K eq_refl).
  now destruct (Regex.take_upto JS.is_digit n s).
Qed.

Lemma take_while_lower (s : string) :
  Regex.take_while JS.is_digit (JS.toLowerCase s) =
  (fst (Regex.take_while JS.is_digit s),
   JS.toLowerCase (snd (Regex.take_while JS.is_digit s))).
Proof.
  induction s as [|c s IH]; try reflexivity.
  cbn [JS.toLowerCase Regex.take_while].
  destruct (is_digit_lower c) as (D & K & _). rewrite D.
  destruct (JS.is_digit c) eqn:E; [|reflexivity].
  rewrite IH, (K eq_refl).
  now destruct (Regex.take_while JS.is_digit s).
Qed.

Lemma take_dot_lower (s : string) :
  Regex.take_dot (JS.toLowerCase s) =
  (fst (Regex.take_dot s), JS.toLowerCase (snd (Regex.take_dot s))).
Proof.
  destruct s as [|c s]; [reflexivity|].
  destruct c as [[] [] [] [] [] [] [] []]; reflexivity.
Qed.

Lemma match_here_lower (i : nat) (s : string) :
  option_map Regex.group1 (Regex.match_here i (JS.toLowerCase s)) =
  option_map Regex.group1 (Regex.match_here i s).
Proof.
  unfold Regex.match_here.
  rewrite take_upto_lower.
  destruct (Regex.take_upto JS.is_digit 3 s) as [d1 r1]. cbn [fst snd].
  destruct (String.length d1 <? 2)%nat; [reflexivity|].
  rewrite take_dot_lower.
  destruct (Regex.take_dot r1) as [dot r2]. cbn [fst snd].
  rewrite take_while_lower.
  destruct (Regex.take_while JS.is_digit r2) as [d2 r3]. cbn [fst snd].
  destruct (Regex.take_while JS.is_space (JS.toLowerCase r3)),
           (Regex.take_while JS.is_space r3).
  reflexivity.
Qed.

Lemma frequencyPattern_lower (q : string) :
  option_map Regex.group1 (Regex.frequencyPattern (JS.toLowerCase q)) =
  option_map Regex.group1 (Regex.frequencyPattern q).
Proof.
  unfold Regex.frequencyPattern. generalize 0%nat.
  induction q as [|c q IH]; intros i.
  - reflexivity.
  - change (JS.toLowerCase (String c q))
      with (String (JS.lower_char c) (JS.toLowerCase q)).
    cbn [Regex.exec_from].
    pose proof (match_here_lower i (String c q)) as M.
    change (JS.toLowerCase (String c q))
      with (String (JS.lower_char c) (JS.toLowerCase q)) in M.
    destruct (Regex.match_here i (String (JS.lower_char c) (JS.toLowerCase q))),
             (Regex.match_here i (String c q));
      try discriminate; auto.
Qed.

(** X17.  The filter of the second draft does not see letter case in the
    search text, in its frequency branch either: two texts that differ in
    case only keep the same stations. *)
Theorem X17_draft2_ignores_case (q1 q2 : string) (station : Station) :
  JS.toLowerCase q1 = JS.toLowerCase q2 ->
  Draft2.matches q1 station = Draft2.matches q2 station.
Proof.
  intros E.
  assert (G : option_map Regex.group1 (Regex.frequencyPattern q1) =
              option_map Regex.group1 (Regex.frequencyPattern q2)).
  { rewrite <- (frequencyPattern_lower q1), <- (frequencyPattern_lower q2).
    now rewrite E. }
  unfold Draft2.matches. rewrite E.
  destruct (Regex.frequencyPattern q1), (Regex.frequencyPattern q2);
    cbn in G; try discriminate; [|reflexivity].
  now injection G as ->.
Qed.

Lemma X17_draft2_ignores_case_witness :
  Draft2.matches "92.3 FM" hot_923 = Draft2.matches "92.3 fm" hot_923 /\
  Draft2.matches "JAZZ" smooth_jazz = Draft2.matches "jazz" smooth_jazz.
Proof.
  split.
  - exact (X17_draft2_ignores_case "92.3 FM" "92.3 fm" hot_923 eq_refl).
  - exact (X17_draft2_ignores_case "JAZZ" "jazz" smooth_jazz eq_refl).
Defined.

(** *** The hint of the results line *)

Lemma number_here_some (s : string) :
  Render.number_here s <> None <->
  exists c rest, s = String c rest /\ JS.is_digit c = true.
Proof.
  unfold Render.number_here. destruct s as [|c s]; cbn [Regex.take_while].
  - cbn. split; [congruence | intros (? & ? & H & _); discriminate].
  - destruct (JS.is_digit c) eqn:E.
    + destruct (Regex.take_while JS.is_digit s) as [a r]. cbn.
      destruct (Regex.take_dot r) as [dot r2].
      destruct (Regex.take_while JS.is_digit r2) as [d2 r3].
      split; [intros _; now exists c, s | congruence].
    + cbn. split; [congruence|].
      intros (x & r & H & Hx). injection H as -> ->. congruence.
Qed.

Lemma numberPattern_some (s : string) :
  Render.numberPattern s <> None <-> has_digit s.
Proof.
  unfold has_digit. induction s as [|c s IH]; cbn [Render.numberPattern].
  - destruct (Render.number_here "") eqn:E.
    + assert (H : Render.number_here "" <> None) by congruence.
      apply number_here_some in H as (? & ? & H & _). discriminate.
    + split; [congruence|].
      intros (pre & x & post & H & _). destruct pre; discriminate.
  - destruct (Render.number_here (String c s)) eqn:E.
    + assert (H : Render.number_here (String c s) <> None) by congruence.
      apply number_here_some in H as (x & rest & H & Hx).
      split; [intros _ | congruence]. now exists "", x, rest.
    + rewrite IH. split.
      * intros (pre & x & post & H & Hx).
        exists (String c pre), x, post. simpl. now rewrite H.
      * intros (pre & x & post & H & Hx).
        destruct pre as [|d pre]; simpl in H.
        -- exfalso.
           assert (N : Render.number_here (String c s) <> None).
           { apply number_here_some. now exists x, post. }
           congruence.
        -- injection H as _ H. now exists pre, x, post.
Qed.

(** X13.  The results line says "matching frequency" exactly when the search
    text holds a digit.  It says so whenever the filter of the second draft
    takes its frequency branch, and also on texts with a single digit, which
    that filter treats as plain text. *)
Theorem X13_hint_needs_one_digit (q : string) :
  (Render.frequency_hint q = " matching frequency" <-> has_digit q) /\
  (Regex.frequencyPattern q <> None ->
   Render.frequency_hint q = " matching frequency") /\
  (Render.frequency_hint "Radio 1" = " matching frequency" /\
   Regex.frequencyPattern "Radio 1" = None).
Proof.
  assert (H : Render.frequency_hint q = " matching frequency" <-> has_digit q).
  { rewrite <- numberPattern_some. unfold Render.frequency_hint.
    destruct (Render.numberPattern q); split; congruence. }
  split; [exact H|]. split; [|split; reflexivity].
  intros F. apply H. apply frequencyPattern_matches in F.
  destruct F as (pre & c1 & c2 & post & E & D1 & _).
  now exists pre, c1, (String c2 post).
Qed.

(** *** The genre of a card *)

(** X14.  The genre shown is the part of [tags] before its first comma: it
    holds no comma, it is all of [tags] when [tags] holds none, and otherwise
    [tags] is the genre, a comma, and the other tags. *)
Theorem X14_genre_is_first_tag (t : string) :
  has_comma (Render.first_field t) = false /\
  (has_comma t = false -> Render.first_field t = t) /\
  (has_comma t = true ->
   exists rest, t = Render.first_field t ++ String "," rest).
Proof.
  induction t as [|c t (IH1 & IH2 & IH3)]; cbn.
  - repeat split; [discriminate].
  - destruct (Ascii.eqb c ",") eqn:E; cbn.
    + apply Ascii.eqb_eq in E. subst c.
      repeat split; [discriminate|]. intros _. now exists t.
    + rewrite E. cbn. repeat split; auto.
      * intros H. now rewrite IH2.
      * intros H. destruct (IH3 H) as [rest R]. exists rest. now rewrite <- R.
Qed.

(** *** The catalog a fallback filters *)

Lemma advance_allStations
    (env : option string) (enc : string -> string) (now : Z) (s : World) :
  allStations (advance env enc now s) = allStations s.
Proof.
  unfold advance, fire_timer. destruct (timer s) as [t|]; auto.
  destruct (due t <=? now)%Z; reflexivity.
Qed.

(** X16.  A search that fails filters the catalog the component held when
    its timeout was registered.  When the catalog arrives while the request
    is on its way, the list shown after the failure is still drawn from the
    older catalog, not from the one held by then. *)
Theorem X16_fallback_filters_catalog_of_issue
    (env : option string) (enc : string -> string)
    (s : World) (i : nat) (r : Request) (t1 t2 : Z) (data : list Station) :
  nth_error (fetches s) i = Some r ->
  let s' := run env enc [ (t1, CatalogSettled (Resolved data));
                          (t2, SearchSettled i Rejected) ] s in
  allStations s' = data /\
  stations s' = filter (fallback_matches (rq_query r)) (rq_catalog r).
Proof.
  intros H. cbv zeta. cbn [run].
  set (s1 := handle t1 (CatalogSettled (Resolved data)) (advance env enc t1 s)).
  assert (A1 : allStations s1 = data).
  { unfold s1. cbn [handle onCatalogSettled].
    unfold rerun_effect, effect_body. destruct (JS.truthy _); reflexivity. }
  assert (F1 : nth_error (fetches (advance env enc t2 s1)) i = Some r).
  { destruct (advance_fetches env enc t2 s1) as [m2 E2].
    destruct (advance_fetches env enc t1 s) as [m1 E1].
    rewrite E2. apply nth_error_app_some.
    unfold s1. rewrite handle_fetches, E1. now apply nth_error_app_some. }
  cbn [handle]. rewrite F1. split.
  - cbn. now rewrite advance_allStations.
  - reflexivity.
Qed.

(** *** How far the frequency reaches *)

Lemma take_while_digits_app (d rest : string) :
  digits d = true -> no_digit_ahead rest = true ->
  Regex.take_while JS.is_digit (d ++ rest) = (d, rest).
Proof.
  intros D R. induction d as [|c d IH]; cbn [append].
  - destruct rest as [|x rest]; [reflexivity|]. cbn in *.
    apply negb_true_iff in R. now rewrite R.
  - cbn in D. apply andb_true_iff in D as [Dc D].
    cbn [Regex.take_while]. now rewrite Dc, (IH D).
Qed.

Lemma take_dot_digit (c : ascii) (t : string) :
  JS.is_digit c = true ->
  Regex.take_dot (String c t) = (EmptyString, String c t).
Proof.
  destruct c as [[] [] [] [] [] [] [] []]; cbn; try discriminate; reflexivity.
Qed.

(** X19.  A search text that starts with four digits or more gives the
    second draft's filter that run of digits as its frequency, and nothing
    more: a decimal part written after it is left out. *)
Theorem X19_long_number_loses_decimals (ds rest : string) :
  digits ds = true -> (4 <= String.length ds)%nat ->
  no_digit_ahead rest = true ->
  option_map (fun m => (Regex.index m, Regex.group1 m))
             (Regex.frequencyPattern (ds ++ rest)) = Some (0%nat, ds).
Proof.
  intros D L R.
  destruct ds as [|c1 [|c2 [|c3 [|c4 ds]]]]; cbn in L; try lia.
  cbn in D.
  apply andb_true_iff in D as [D1 D]. apply andb_true_iff in D as [D2 D].
  apply andb_true_iff in D as [D3 D].
  assert (D' : digits (String c4 ds) = true) by exact D.
  apply andb_true_iff in D as [D4 D].
  unfold Regex.frequencyPattern. cbn [append Regex.exec_from].
  unfold Regex.match_here. cbn [Regex.take_upto].
  rewrite D1, D2, D3. cbn [String.length Nat.ltb Nat.leb].
  rewrite (take_dot_digit c4 _ D4).
  change (String c4 (ds ++ rest)) with (String c4 ds ++ rest).
  rewrite (take_while_digits_app _ rest D' R).
  destruct (Regex.take_while JS.is_space rest) as [ws r4]. reflexivity.
Qed.

Lemma X19_long_number_loses_decimals_witness :
  option_map (fun m => (Regex.index m, Regex.group1 m))
             (Regex.frequencyPattern "1030.5 khz") = Some (0%nat, "1030").
Proof.
  exact (X19_long_number_loses_decimals "1030" ".5 khz" eq_refl
           (le_n 4) eq_refl).
Defined.

(** X20.  A search text that starts with two or three digits, a dot and
    further digits gives the second draft's filter the whole number as its
    frequency, decimals included, whatever follows. *)
Theorem X20_short_number_keeps_decimals (ds fs rest : string) :
  digits ds = true ->
  (String.length ds = 2 \/ String.length ds = 3)%nat ->
  digits fs = true -> no_digit_ahead rest = true ->
  option_map (fun m => (Regex.index m, Regex.group1 m))
             (Regex.frequencyPattern (ds ++ String "." (fs ++ rest)))
  = Some (0%nat, ds ++ String "." fs).
Proof.
  intros D L F R.
  assert (T : Regex.take_while JS.is_digit (fs ++ rest) = (fs, rest))
    by now apply take_while_digits_app.
  destruct ds as [|c1 [|c2 [|c3 [|c4 ds]]]]; cbn in L;
    try (exfalso; lia); cbn in D.
  - apply andb_true_iff in D as [D1 D]. apply andb_true_iff in D as [D2 _].
    unfold Regex.frequencyPattern. cbn [append Regex.exec_from].
    unfold Regex.match_here. cbn [Regex.take_upto].
    rewrite D1, D2.
    change (JS.is_digit ".") with false. cbn iota.
    cbn [String.length Nat.ltb Nat.leb Regex.take_dot].
    rewrite T.
    destruct (Regex.take_while JS.is_space rest) as [ws r4]. reflexivity.
  - apply andb_true_iff in D as [D1 D]. apply andb_true_iff in D as [D2 D].
    apply andb_true_iff in D as [D3 _].
    unfold Regex.frequencyPattern. cbn [append Regex.exec_from].
    unfold Regex.match_here. cbn [Regex.take_upto].
    rewrite D1, D2, D3.
    cbn [String.length Nat.ltb Nat.leb Regex.take_dot].
    rewrite T.
    destruct (Regex.take_while JS.is_space rest) as [ws r4]. reflexivity.
Qed.

Lemma X20_short_number_keeps_decimals_witness :
  option_map (fun m => (Regex.index m, Regex.group1 m))
             (Regex.frequencyPattern "92.3 FM") = Some (0%nat, "92.3").
Proof.
  exact (X20_short_number_keeps_decimals "92" "3" " FM" eq_refl
           (or_introl eq_refl) eq_refl eq_refl).
Defined.

(** ** The further theorems at work *)

(** While rock_fm plays, a record with its [uuid] and another address is
    clicked. *)
Lemma X4_same_uuid_pauses_witness :
  currentStation
    (select None JS.encodeURIComponent
       (mkStation "u-3" "Rock FM (mirror)" "Germany" "german" None
                  "http://mirror.example/live" 0)
       (Resolved tt) listening) = Some rock_fm /\
  isPlaying
    (select None JS.encodeURIComponent
       (mkStation "u-3" "Rock FM (mirror)" "Germany" "german" None
                  "http://mirror.example/live" 0)
       (Resolved tt) listening) = false.
Proof.
  pose proof (X4_same_uuid_pauses None JS.encodeURIComponent listening rock_fm
                (mkStation "u-3" "Rock FM (mirror)" "Germany" "german" None
                           "http://mirror.example/live" 0)
                (Resolved tt) eq_refl eq_refl eq_refl) as H.
  cbv zeta in H. destruct H as (H1 & H2 & _). exact (conj H1 H2).
Defined.

(** While rock_fm plays, hot_923 is clicked. *)
Lemma X5_switch_pauses_first_witness :
  playbackState
    (select None JS.encodeURIComponent hot_923 (Resolved tt) listening)
  = Playing hot_923.
Proof.
  assert (U : uuid rock_fm <> uuid hot_923) by discriminate.
  pose proof (X5_switch_pauses_first None JS.encodeURIComponent listening
                (mkAudio (proxyUrl None JS.encodeURIComponent rock_fm) (7 # 10))
                rock_fm hot_923 eq_refl U eq_refl) as H.
  cbv zeta in H. exact (proj1 H).
Defined.

(** The stream of rock_fm ends, and rock_fm is clicked again. *)
Lemma X6_ended_then_select_restarts_witness :
  playbackState (onEnded listening) = Paused rock_fm /\
  playbackState
    (select None JS.encodeURIComponent rock_fm (Resolved tt)
       (onEnded listening)) = Playing rock_fm.
Proof.
  pose proof (X6_ended_then_select_restarts None JS.encodeURIComponent
                listening
                (mkAudio (proxyUrl None JS.encodeURIComponent rock_fm) (7 # 10))
                rock_fm eq_refl eq_refl) as H.
  cbv zeta in H. destruct H as (_ & H1 & _ & H2 & _). exact (conj H1 H2).
Defined.

(** Mute and unmute while rock_fm plays. *)
Lemma X7_toggleMute_twice_witness :
  same_sound (toggleMute (toggleMute listening)) listening.
Proof.
  assert (L : level_invariant listening).
  { intros a E. injection E as <-. reflexivity. }
  exact (X7_toggleMute_twice listening
           (mkAudio (proxyUrl None JS.encodeURIComponent rock_fm) (7 # 10))
           eq_refl L).
Defined.

(** From the mounted component, whose element is at level 1: play, mute,
    change the volume. *)
Lemma X9_muted_is_silent_witness :
  isMuted
    (audio_run None JS.encodeURIComponent
       [OpPlay rock_fm; OpToggleMute; OpVolume (4 # 10)] mounted) = true /\
  audioRef
    (audio_run None JS.encodeURIComponent
       [OpPlay rock_fm; OpToggleMute; OpVolume (4 # 10)] mounted)
  = Some (mkAudio (proxyUrl None JS.encodeURIComponent rock_fm) 0) /\
  level (mkAudio (proxyUrl None JS.encodeURIComponent rock_fm) 0) = 0.
Proof.
  split; [reflexivity|]. split; [reflexivity|].
  exact (X9_muted_is_silent None JS.encodeURIComponent
           [OpPlay rock_fm; OpToggleMute; OpVolume (4 # 10)] mounted
           (mkAudio (proxyUrl None JS.encodeURIComponent rock_fm) 0)
           eq_refl eq_refl eq_refl).
Defined.

(** From the mounted component: play, mute, switch. *)
Lemma X10_src_is_proxy_of_selected_witness :
  src_follows None JS.encodeURIComponent
    (audio_run None JS.encodeURIComponent
       [OpPlay rock_fm; OpToggleMute; OpPlay hot_923] mounted).
Proof.
  assert (S : src_follows None JS.encodeURIComponent mounted).
  { intros a E. injection E as <-. reflexivity. }
  exact (X10_src_is_proxy_of_selected None JS.encodeURIComponent
           [OpPlay rock_fm; OpToggleMute; OpPlay hot_923] mounted S).
Defined.

(** While rock_fm plays: the stream ends, two clicks, an error. *)
Lemma X11_never_idle_again_witness :
  playbackState
    (audio_run None JS.encodeURIComponent
       [OpEnded; OpPlay rock_fm; OpPlay rock_fm; OpError] listening) <> Idle.
Proof.
  assert (N : playbackState listening <> Idle) by discriminate.
  exact (X11_never_idle_again None JS.encodeURIComponent
           [OpEnded; OpPlay rock_fm; OpPlay rock_fm; OpError] listening N).
Defined.

(** The four sample stations while rock_fm plays. *)
Lemma X12_one_pause_icon_witness :
  (List.length
     (filter (Render.shows_pause listening)
             [smooth_jazz; hot_923; rock_fm; world_service]) <= 1)%nat.
Proof.
  assert (N : NoDup (map uuid [smooth_jazz; hot_923; rock_fm; world_service])).
  { repeat (constructor; [simpl; intuition discriminate|]). constructor. }
  exact (X12_one_pause_icon listening
           [smooth_jazz; hot_923; rock_fm; world_service] N).
Defined.

(** The search for rock left before any catalog had arrived; the catalog
    arrives, then the search fails. *)
Lemma X16_fallback_filters_catalog_of_issue_witness :
  allStations
    (run None JS.encodeURIComponent
       [ (2300, CatalogSettled (Resolved [rock_fm]));
         (2400, SearchSettled 0 Rejected) ]%Z two_searches) = [rock_fm] /\
  stations
    (run None JS.encodeURIComponent
       [ (2300, CatalogSettled (Resolved [rock_fm]));
         (2400, SearchSettled 0 Rejected) ]%Z two_searches) = [].
Proof.
  exact (X16_fallback_filters_catalog_of_issue None JS.encodeURIComponent
           two_searches 0
           (mkRequest (search_url None JS.encodeURIComponent "rock") "rock" [])
           2300 2400 [rock_fm] eq_refl).
Defined.
